(** * oidcmsg.key_jar: the KeyJar key store

    A shallow embedding of [src/oidcmsg/key_jar.py].  The store maps an owner
    identifier to the list of key bundles of that owner.  Methods of [KeyJar]
    that touch [self] are written in a state-and-exception monad over the
    store, so that "raises" and "leaves the store unchanged" are statements
    about the pair a method returns.

    Modelling choices:
    - the dict [issuer_keys] is a finite map; the order in which Python
      walks its keys plays no part in what the methods below compute;
    - time stamps and the retention window are integers;
    - bundle lists and bundles are values.  No method modelled here shrinks
      a list in place and a bundle's purge depends on the bundle alone, so
      the statements below do not depend on two owners sharing one bundle
      object; a list object bound to two owners by the caller, which would
      make a later append show under both, is not followed;
    - the key bundle class lives in [oidcmsg.key_bundle]; what the store
      uses of it is modelled from its description in the specification. *)

From Stdlib Require Import ZArith Ascii.
From stdpp Require Import gmap strings list fin_maps.

(** ** Python strings *)

Module PyStr.

(** [s.endswith("/")] *)
Fixpoint endswith_slash (s : string) : bool :=
  match s with
  | EmptyString => false
  | String c rest =>
      match rest with
      | EmptyString => bool_decide (c = "/"%char)
      | String _ _ => endswith_slash rest
      end
  end.

(** [s[:-1]] *)
Fixpoint drop_last (s : string) : string :=
  match s with
  | EmptyString => EmptyString
  | String c rest =>
      match rest with
      | EmptyString => EmptyString
      | String _ _ => String c (drop_last rest)
      end
  end.

(** [s[n:]] *)
Fixpoint slice_from (n : nat) (s : string) : string :=
  match n, s with
  | O, _ => s
  | S _, EmptyString => EmptyString
  | S m, String _ rest => slice_from m rest
  end.

(** [sub in s] *)
Fixpoint contains (sub s : string) : bool :=
  String.prefix sub s ||
  match s with
  | EmptyString => false
  | String _ rest => contains sub rest
  end.

(** Truth value of a string: the empty string is false. *)
Definition truthy (s : string) : bool := negb (bool_decide (s = "")).

End PyStr.

(** ** Keys

    The attributes of a key object that the store reads.  [use] is [""] when
    the key has no declared use, [kid] is [""] when it has no identifier,
    [inactive_since] is [0] while the key is active.  [k] stands for the key
    material and [priv] for the private-key classification. *)

Module Key.

Record t := mk {
  kty : string;
  use : string;
  kid : string;
  crv : string;
  inactive_since : Z;
  k : string;
  priv : bool
}.

#[global] Instance eq_dec : EqDecision t.
Proof. solve_decision. Defined.

(** [bool(key.inactive_since)] *)
Definition inactive (key : t) : bool := negb (inactive_since key =? 0)%Z.

End Key.

(** ** Key bundles *)

Module KeyBundle.

Record t := mk {
  _keys : list Key.t;
  source : string;
  verify_ssl : bool
}.

#[global] Instance eq_dec : EqDecision t.
Proof. solve_decision. Defined.

(** Modelled from the spec: the class [oidcmsg.key_bundle.KeyBundle] is not
    part of the sources at hand.  A bundle built from a literal key list
    holds these keys and has no source. *)
Definition of_keys (keys : list Key.t) (verify : bool) : t :=
  mk keys "" verify.

(** Modelled from the spec: a bundle built from a source URL records the
    URL; fetching the remote key set is the bundle's own business and is not
    performed by the store. *)
Definition of_source (url : string) (verify : bool) : t :=
  mk [] url verify.

(** Modelled from the spec: "enumerate all keys". *)
Definition keys (kb : t) : list Key.t := _keys kb.

(** Modelled from the spec: "enumerate keys of a given key-type". *)
Definition get (typ : string) (kb : t) : list Key.t :=
  filter (λ key, Key.kty key = typ) (_keys kb).

(** Modelled from the spec: [len(kb)], the number of keys held. *)
Definition len (kb : t) : nat := length (_keys kb).

(** Modelled from the spec: "mark-and-purge keys inactive longer than a
    retention window", called as [remove_outdated(retention_seconds, now)].
    A key is dropped when it is inactive and its retention window has
    elapsed at [now]. *)
Definition outdated (after now : Z) (key : Key.t) : bool :=
  Key.inactive key && (Key.inactive_since key + after <? now)%Z.

Definition remove_outdated (after now : Z) (kb : t) : t :=
  mk (filter (λ key, outdated after now key = false) (_keys kb))
     (source kb) (verify_ssl kb).

(** Modelled from the spec: "produce a deep copy"; the copy holds the same
    keys and has the same source. *)
Definition copy (kb : t) : t := mk (_keys kb) (source kb) (verify_ssl kb).

End KeyBundle.

(** ** Python values and exceptions *)

(** The values a caller may hand to [__setitem__] or compare a store with. *)
#[warnings="-register-all"]
Inductive pyval :=
  | PyNone
  | PyString (s : string)
  | PyKeyBundle (kb : KeyBundle.t)
  | PyList (l : list pyval).

(** Exception classes the module raises or catches. *)
Inductive exn_class :=
  | BaseException | Exception | LookupError | KeyError | ValueError
  | TypeError | OidcMsgError | KeyIOError | UnknownKeyType | UpdateFailed.

#[global] Instance exn_class_eq_dec : EqDecision exn_class.
Proof. solve_decision. Defined.

Definition class_name (c : exn_class) : string :=
  match c with
  | BaseException => "BaseException"
  | Exception => "Exception"
  | LookupError => "LookupError"
  | KeyError => "KeyError"
  | ValueError => "ValueError"
  | TypeError => "TypeError"
  | OidcMsgError => "OidcMsgError"
  | KeyIOError => "KeyIOError"
  | UnknownKeyType => "UnknownKeyType"
  | UpdateFailed => "UpdateFailed"
  end.

(** The class itself followed by its base classes. *)
Definition mro (c : exn_class) : list exn_class :=
  match c with
  | BaseException => [BaseException]
  | Exception => [Exception; BaseException]
  | LookupError => [LookupError; Exception; BaseException]
  | KeyError => [KeyError; LookupError; Exception; BaseException]
  | ValueError => [ValueError; Exception; BaseException]
  | TypeError => [TypeError; Exception; BaseException]
  | OidcMsgError => [OidcMsgError; Exception; BaseException]
  | KeyIOError => [KeyIOError; OidcMsgError; Exception; BaseException]
  | UnknownKeyType =>
      [UnknownKeyType; KeyIOError; OidcMsgError; Exception; BaseException]
  | UpdateFailed =>
      [UpdateFailed; KeyIOError; OidcMsgError; Exception; BaseException]
  end.

(** The argument of an exception: a literal text, or a format template
    together with the value it is applied to. *)
Inductive exn_arg :=
  | Text (s : string)
  | Format (template : string) (arg : pyval).

Record exn := Exn { exn_cls : exn_class; exn_descr : exn_arg }.

(** [isinstance(e, c)] *)
Definition isinstance (e : exn) (c : exn_class) : bool :=
  bool_decide (c ∈ mro (exn_cls e)).

Inductive outcome (A : Type) :=
  | Return (a : A)
  | Raise (e : exn).
Arguments Return {A} a.
Arguments Raise {A} e.

(** ** The store *)

Module KeyJar.

(** The fields of a [KeyJar] instance.  [keybundle_cls] is fixed to
    [KeyBundle]; [spec2key] is initialised to an empty dict and never used
    afterwards. *)
Record t := mk {
  issuer_keys : gmap string (list KeyBundle.t);
  ca_certs : option string;
  verify_ssl : bool;
  remove_after : Z
}.

(** [KeyJar.__init__] *)
Definition __init__ (ca_certs : option string) (verify_ssl : bool)
    (remove_after : Z) : t :=
  mk ∅ ca_certs verify_ssl remove_after.

(** [KeyJar()] with the default arguments. *)
Definition new : t := __init__ None true 3600.

Definition with_issuer_keys (kj : t)
    (m : gmap string (list KeyBundle.t)) : t :=
  mk m (ca_certs kj) (verify_ssl kj) (remove_after kj).

(** *** Methods as computations over the store

    A method body takes the store and gives back what it returned or raised
    together with the store it leaves behind. *)

Definition M (A : Type) : Type := t → outcome A * t.

Definition ret {A} (a : A) : M A := λ kj, (Return a, kj).

Definition raise {A} (e : exn) : M A := λ kj, (Raise e, kj).

Definition bind {A B} (m : M A) (f : A → M B) : M B :=
  λ kj, match m kj with
        | (Return a, kj') => f a kj'
        | (Raise e, kj') => (Raise e, kj')
        end.

(** [try: m except cls: handler] *)
Definition try_except {A} (m : M A) (cls : exn_class) (handler : M A) : M A :=
  λ kj, match m kj with
        | (Return a, kj') => (Return a, kj')
        | (Raise e, kj') =>
            if isinstance e cls then handler kj' else (Raise e, kj')
        end.

#[global] Instance M_ret : MRet M := @ret.
#[global] Instance M_bind : MBind M := λ A B f m, bind m f.

(** What a call returned or raised, and the store after the call. *)
Definition result {A} (m : M A) (kj : t) : outcome A := fst (m kj).
Definition store_after {A} (m : M A) (kj : t) : t := snd (m kj).

(** The instance the method is called on. *)
Definition self : M t := λ kj, (Return kj, kj).

(** [self.issuer_keys[owner]] *)
Definition getitem (owner : string) : M (list KeyBundle.t) :=
  λ kj, match issuer_keys kj !! owner with
        | Some kbl => (Return kbl, kj)
        | None => (Raise (Exn KeyError (Text owner)), kj)
        end.

(** [self.issuer_keys[owner] = kbl] *)
Definition assign (owner : string) (kbl : list KeyBundle.t) : M unit :=
  λ kj, (Return tt, with_issuer_keys kj (<[owner := kbl]> (issuer_keys kj))).

(** [del self.issuer_keys[owner]] *)
Definition delitem (owner : string) : M unit :=
  λ kj, match issuer_keys kj !! owner with
        | Some _ =>
            (Return tt, with_issuer_keys kj (delete owner (issuer_keys kj)))
        | None => (Raise (Exn KeyError (Text owner)), kj)
        end.

(** [self.issuer_keys[owner].append(kb)]: the list bound to [owner] is
    extended in place. *)
Definition append (owner : string) (kb : KeyBundle.t) : M unit :=
  kbl ← getitem owner; assign owner (kbl ++ [kb]).

(** [owner in self.issuer_keys] *)
Definition has_owner (owner : string) : M bool :=
  λ kj, (Return (bool_decide (is_Some (issuer_keys kj !! owner))), kj).

(** [list(self.issuer_keys.keys())] *)
Definition owner_list (kj : t) : list string :=
  (map_to_list (issuer_keys kj)).*1.

Definition owners : M (list string) := λ kj, (Return (owner_list kj), kj).

(** Monadic iteration over a list: [for x in l: body(x)]. *)
Fixpoint for_each {A} (l : list A) (body : A → M unit) : M unit :=
  match l with
  | [] => ret tt
  | x :: rest => _ ← body x; for_each rest body
  end.

(** *** add_url *)

Definition add_url (owner url : string) : M KeyBundle.t :=
  if negb (PyStr.truthy url) then raise (Exn KeyError (Text "No jwks_uri"))
  else
    kj ← self;
    let kc :=
      if PyStr.contains "/localhost:" url || PyStr.contains "/localhost/" url
      then KeyBundle.of_source url false
      else KeyBundle.of_source url (verify_ssl kj) in
    _ ← try_except (append owner kc) KeyError (assign owner [kc]);
    ret kc.

(** *** get *)

(** [if key_use in ["dec", "enc"]: use = "enc" else: use = "sig"] *)
Definition use_class (key_use : string) : string :=
  if bool_decide (key_use ∈ ["dec"; "enc"]) then "enc" else "sig".

(** Truth value of the [kid] argument: [None] and [""] are false. *)
Definition kid_given (kid : option string) : bool :=
  match kid with
  | Some s => PyStr.truthy s
  | None => false
  end.

(** The owner resolution at the head of [get]: the owner as given, then,
    for a non-empty owner, the owner with its trailing slash toggled. *)
Definition lookup_owner (owner : string) : M (option (list KeyBundle.t)) :=
  if bool_decide (owner ≠ "") then
    try_except (kbl ← getitem owner; ret (Some kbl)) KeyError
      (if PyStr.endswith_slash owner then
         try_except (kbl ← getitem (PyStr.drop_last owner); ret (Some kbl))
           KeyError (ret None)
       else
         try_except (kbl ← getitem (owner +:+ "/"); ret (Some kbl))
           KeyError (ret None))
  else
    try_except (kbl ← getitem owner; ret (Some kbl)) KeyError (ret None).

(** The inner loop [for key in _bkeys] with its [continue] and [break]. *)
Fixpoint scan_keys (key_use use : string) (kid : option string)
    (_bkeys : list Key.t) : list Key.t :=
  match _bkeys with
  | [] => []
  | key :: rest =>
      if Key.inactive key && negb (bool_decide (key_use = "sig")) then
        scan_keys key_use use kid rest
      else if negb (PyStr.truthy (Key.use key))
              || bool_decide (use = Key.use key) then
        if kid_given kid then
          if bool_decide (Some (Key.kid key) = kid) then [key]
          else scan_keys key_use use kid rest
        else key :: scan_keys key_use use kid rest
      else scan_keys key_use use kid rest
  end.

(** The outer loop [for bundle in _kj]. *)
Definition select_keys (key_use use key_type : string) (kid : option string)
    (_kj : list KeyBundle.t) : list Key.t :=
  flat_map
    (λ bundle,
       let _bkeys :=
         if PyStr.truthy key_type then KeyBundle.get key_type bundle
         else KeyBundle.keys bundle in
       scan_keys key_use use kid _bkeys)
    _kj.

(** The elliptic-curve check; [alg] is [kwargs["alg"]] when present. *)
Definition ec_filter (key_type : string) (alg : option string)
    (lst : list Key.t) : list Key.t :=
  match alg with
  | Some a =>
      if bool_decide (key_type = "EC") then
        let name := "P-" +:+ PyStr.slice_from 2 a in
        filter (λ key, name = Key.crv key) lst
      else lst
  | None => lst
  end.

(** The keys the loop over [self.issuer_keys['']] appends. *)
Definition own_symmetric (use key_type : string)
    (own : list KeyBundle.t) : list Key.t :=
  flat_map
    (λ kb,
       filter
         (λ key, Key.inactive key = false
                 ∧ (PyStr.truthy (Key.use key) = false ∨ Key.use key = use))
         (KeyBundle.get key_type kb))
    own.

Definition get (key_use key_type owner : string) (kid alg : option string)
    : M (list Key.t) :=
  let use := use_class key_use in
  _kj ← lookup_owner owner;
  match _kj with
  | None => ret []
  | Some _kj =>
      let lst := select_keys key_use use key_type kid _kj in
      let lst := ec_filter key_type alg lst in
      if bool_decide (use = "enc") && bool_decide (key_type = "oct")
         && bool_decide (owner ≠ "") then
        own ← getitem "";
        ret (lst ++ own_symmetric use key_type own)
      else ret lst
  end.

Definition get_signing_key (key_type owner : string) (kid alg : option string)
    : M (list Key.t) :=
  get "sig" key_type owner kid alg.

Definition get_verify_key (key_type owner : string) (kid alg : option string)
    : M (list Key.t) :=
  get "ver" key_type owner kid alg.

Definition get_encrypt_key (key_type owner : string) (kid alg : option string)
    : M (list Key.t) :=
  get "enc" key_type owner kid alg.

Definition get_decrypt_key (key_type owner : string) (kid alg : option string)
    : M (list Key.t) :=
  get "dec" key_type owner kid alg.

(** *** add_symmetric, add_kb, __setitem__ *)

Section add_symmetric.

(** [b64e(as_bytes(key))], the base64url encoding of the [cryptojwt]
    library. *)
Variable b64e : string → string.

Definition add_symmetric (owner key : string) (usage : option (list string))
    : M unit :=
  known ← has_owner owner;
  _ ← (if negb known then assign owner [] else ret tt);
  let _key := b64e key in
  match usage with
  | None =>
      append owner
        (KeyBundle.of_keys [Key.mk "oct" "" "" "" 0 _key true] true)
  | Some usage =>
      for_each usage
        (λ use,
           append owner
             (KeyBundle.of_keys [Key.mk "oct" use "" "" 0 _key true] true))
  end.

End add_symmetric.

Definition add_kb (owner : string) (kb : KeyBundle.t) : M unit :=
  try_except (append owner kb) KeyError (assign owner [kb]).

(** The bundles among a list of values. *)
Definition bundles_of (val : list pyval) : list KeyBundle.t :=
  omap (λ v, match v with PyKeyBundle kb => Some kb | _ => None end) val.

(** [isinstance(kb, KeyBundle)] *)
Definition is_bundle (v : pyval) : bool :=
  match v with
  | PyKeyBundle _ => true
  | _ => false
  end.

(** [if not isinstance(val, list): val = [val]] *)
Definition as_list (val : pyval) : list pyval :=
  match val with
  | PyList l => l
  | _ => [val]
  end.

Definition __setitem__ (owner : string) (val : pyval) : M unit :=
  let val := as_list val in
  _ ← for_each val
        (λ kb,
           if negb (is_bundle kb) then
             raise (Exn ValueError (Format "{} not an KeyBundle instance" kb))
           else ret tt);
  assign owner (bundles_of val).

(** *** get_issuer_keys, __contains__, __getitem__ *)

Definition get_issuer_keys (issuer : string) : M (list Key.t) :=
  kbl ← getitem issuer;
  ret (flat_map KeyBundle.keys kbl).

Definition __contains__ (item : string) : M bool :=
  known ← has_owner item;
  if (known : bool) then ret true else ret false.

(** *** import_jwks

    A JWKS is a dict; the key objects under ["keys"] are given as the keys
    the bundle makes of them. *)

Definition import_jwks (jwks : gmap string (list Key.t)) (issuer : string)
    : M unit :=
  match jwks !! "keys" with
  | None => raise (Exn ValueError (Text "Not a proper JWKS"))
  | Some _keys =>
      kj ← self;
      try_except (append issuer (KeyBundle.of_keys _keys (verify_ssl kj)))
        KeyError
        (assign issuer [KeyBundle.of_keys _keys (verify_ssl kj)])
  end.

(** *** __eq__ *)

(** What a store may be compared with. *)
Inductive operand :=
  | AKeyJar (other : t)
  | NotAKeyJar (v : pyval).

(** The loop [for iss in self.owners()] of [__eq__]; [True] is returned
    when the loop runs to its end. *)
Fixpoint eq_issuers (self_ other : t) (isss : list string) : outcome bool :=
  match isss with
  | [] => Return true
  | iss :: rest =>
      match result (get_issuer_keys iss) self_ with
      | Raise e => Raise e
      | Return sk =>
          match result (get_issuer_keys iss) other with
          | Raise e => Raise e
          | Return ok =>
              if negb (bool_decide (length sk = length ok)) then Return false
              else if negb (existsb (λ k, bool_decide (k ∈ ok)) sk) then
                Return false
              else eq_issuers self_ other rest
          end
      end
  end.

Definition __eq__ (self_ : t) (other : operand) : outcome bool :=
  match other with
  | NotAKeyJar _ => Return false
  | AKeyJar other =>
      if negb (bool_decide
                 (dom (issuer_keys self_) = dom (issuer_keys other)))
      then Return false
      else eq_issuers self_ other (owner_list self_)
  end.

(** *** remove_outdated *)

(** The inner loop: every bundle purges itself, the bundles that still hold
    a key are kept. *)
Definition purge_bundles (after when : Z) (kbl : list KeyBundle.t)
    : list KeyBundle.t :=
  filter (λ kb, KeyBundle.len kb ≠ 0%nat)
    (map (KeyBundle.remove_outdated after when) kbl).

(** The body of the loop [for iss in list(self.owners())]. *)
Definition purge_owner (when : Z) (iss : string) : M unit :=
  kj ← self;
  kbl ← getitem iss;
  let _kbl := purge_bundles (remove_after kj) when kbl in
  if bool_decide (_kbl ≠ []) then assign iss _kbl else delitem iss.

Definition remove_outdated (when : Z) : M unit :=
  isss ← owners;
  for_each isss (purge_owner when).

(** *** _add_key *)

(** [for _key in found: if _key and _key not in keys: keys.append(_key)] *)
Fixpoint append_new (keys found : list Key.t) : list Key.t :=
  match found with
  | [] => keys
  | _key :: rest =>
      if bool_decide (_key ∈ keys) then append_new keys rest
      else append_new (keys ++ [_key]) rest
  end.

(** Truth value of the [no_kid_issuer] argument: [None] and the empty dict
    are false. *)
Definition nki_given
    (no_kid_issuer : option (gmap string (option (list string)))) : bool :=
  match no_kid_issuer with
  | Some d => negb (bool_decide (d = ∅))
  | None => false
  end.

(** Truth value of an allow-list entry: [None] and the empty list are
    false. *)
Definition kids_given (allowed_kids : option (list string)) : bool :=
  match allowed_kids with
  | Some (_ :: _) => true
  | _ => false
  end.

Definition _add_key (keys : list Key.t) (owner use key_type kid : string)
    (no_kid_issuer : option (gmap string (option (list string))))
    (allow_missing_kid : bool) : M (list Key.t) :=
  known ← __contains__ owner;
  if negb known then ret keys
  else if PyStr.truthy kid then
    found ← get use key_type owner (Some kid) None;
    ret (append_new keys found)
  else
    kl ← try_except (kl ← get use key_type owner None None; ret (Some kl))
           KeyError (ret None);
    match kl with
    | None => ret keys
    | Some kl =>
        if bool_decide (length kl = 0%nat) then ret keys
        else if bool_decide (length kl = 1%nat) then
          match kl with
          | kl0 :: _ =>
              if bool_decide (kl0 ∈ keys) then ret keys
              else ret (keys ++ [kl0])
          | [] => ret keys
          end
        else if allow_missing_kid then ret (keys ++ kl)
        else if nki_given no_kid_issuer then
          match default ∅ no_kid_issuer !! owner with
          | None => ret keys
          | Some allowed_kids =>
              if kids_given allowed_kids then
                ret (keys ++
                     filter (λ k, Key.kid k ∈ default [] allowed_kids) kl)
              else ret (keys ++ kl)
          end
        else ret keys
    end.

(** ** Notions used in the statements *)

(** The owner with its trailing slash toggled. *)
Definition toggle_slash (owner : string) : string :=
  if PyStr.endswith_slash owner then PyStr.drop_last owner
  else owner +:+ "/".

(** The bundle list [get] works on, if any. *)
Definition resolve_owner (owner : string) (kj : t)
    : option (list KeyBundle.t) :=
  match issuer_keys kj !! owner with
  | Some kbl => Some kbl
  | None =>
      if bool_decide (owner = "") then None
      else issuer_keys kj !! toggle_slash owner
  end.

(** What [get] returns or raises, as a function of the store. *)
Definition get_outcome (key_use key_type owner : string)
    (kid alg : option string) (kj : t) : outcome (list Key.t) :=
  match resolve_owner owner kj with
  | None => Return []
  | Some _kj =>
      let lst :=
        ec_filter key_type alg
          (select_keys key_use (use_class key_use) key_type kid _kj) in
      if bool_decide (use_class key_use = "enc")
         && bool_decide (key_type = "oct") && bool_decide (owner ≠ "") then
        match issuer_keys kj !! "" with
        | Some own =>
            Return (lst ++ own_symmetric (use_class key_use) key_type own)
        | None => Raise (Exn KeyError (Text ""))
        end
      else Return lst
  end.

(** The store invariant of the data model: no owner is bound to an empty
    list of bundles. *)
Definition no_empty_owner (kj : t) : Prop :=
  ∀ owner kbl, issuer_keys kj !! owner = Some kbl → kbl ≠ [].

(** The public operations that change the store. *)
Inductive mutation :=
  | AddUrl (owner url : string)
  | AddSymmetric (owner key : string) (usage : option (list string))
  | AddKb (owner : string) (kb : KeyBundle.t)
  | SetItem (owner : string) (val : pyval)
  | ImportJwks (jwks : gmap string (list Key.t)) (issuer : string)
  | RemoveOutdated (when : Z).

Definition run_mutation (b64e : string → string) (op : mutation) : M unit :=
  match op with
  | AddUrl owner url => _ ← add_url owner url; ret tt
  | AddSymmetric owner key usage => add_symmetric b64e owner key usage
  | AddKb owner kb => add_kb owner kb
  | SetItem owner val => __setitem__ owner val
  | ImportJwks jwks issuer => import_jwks jwks issuer
  | RemoveOutdated when => remove_outdated when
  end.

(** The two calls that bind an owner to an empty list: [add_symmetric] with
    an empty usage list for an owner the store does not know, and
    [__setitem__] with an empty list. *)
Definition binds_empty_list (op : mutation) (kj : t) : Prop :=
  match op with
  | AddSymmetric owner _ (Some []) => issuer_keys kj !! owner = None
  | SetItem _ (PyList []) => True
  | _ => False
  end.

(** What one purge makes of the bundle list of an owner: [None] when the
    owner is dropped. *)
Definition purged_entry (after when : Z) (kbl : list KeyBundle.t)
    : option (list KeyBundle.t) :=
  let _kbl := purge_bundles after when kbl in
  if bool_decide (_kbl ≠ []) then Some _kbl else None.

(** All keys of an owner, bundle after bundle; empty for an unknown
    owner. *)
Definition keys_of (kj : t) (iss : string) : list Key.t :=
  flat_map KeyBundle.keys (default [] (issuer_keys kj !! iss)).

(** Equality as the specification words it: the same owners and, for every
    owner, as many keys on both sides and at least one key in common. *)
Definition weakly_equal (a b : t) : Prop :=
  dom (issuer_keys a) = dom (issuer_keys b)
  ∧ ∀ iss, iss ∈ dom (issuer_keys a) →
      length (keys_of a iss) = length (keys_of b iss)
      ∧ ∃ key, key ∈ keys_of a iss ∧ key ∈ keys_of b iss.

(** The per-owner test of [__eq__]. *)
Definition issuer_agrees (a b : t) (iss : string) : bool :=
  bool_decide (length (keys_of a iss) = length (keys_of b iss))
  && existsb (λ key, bool_decide (key ∈ keys_of b iss)) (keys_of a iss).

(** A store with one owner that holds one bundle with one key. *)
Definition single_key_store (owner : string) (key : Key.t) : t :=
  with_issuer_keys new {[ owner := [KeyBundle.of_keys [key] true] ]}.

(** The keys [_add_key] lets in when the token has no [kid] and the lookup
    found several keys. *)
Definition accepted (owner : string)
    (no_kid_issuer : option (gmap string (option (list string))))
    (allow_missing_kid : bool) (kl : list Key.t) : list Key.t :=
  if allow_missing_kid then kl
  else
    match no_kid_issuer ≫= (λ d, d !! owner) with
    | None => []
    | Some None | Some (Some []) => kl
    | Some (Some allowed_kids) =>
        filter (λ key, Key.kid key ∈ allowed_kids) kl
    end.

(** ** The remaining methods *)

(** *** __getitem__

    The [KeyError] is logged and raised again. *)
Definition __getitem__ (owner : string) : M (list KeyBundle.t) :=
  getitem owner.

(** *** match_owner

    [order] is the sequence in which the dict yields its keys. *)
Fixpoint match_owner_loop (order : list string) (url : string)
    : outcome string :=
  match order with
  | [] =>
      Raise (Exn KeyIOError (Format "No keys for '%s'" (PyString url)))
  | owner :: rest =>
      if String.prefix owner url then Return owner
      else match_owner_loop rest url
  end.

Definition match_owner (order : list string) (url : string) : M string :=
  λ kj, (match_owner_loop order url, kj).

(** *** find *)

(** [for kb in kbl: if kb.source == source: return kb] *)
Fixpoint first_with_source (source : string) (kbl : list KeyBundle.t)
    : option KeyBundle.t :=
  match kbl with
  | [] => None
  | kb :: rest =>
      if bool_decide (KeyBundle.source kb = source) then Some kb
      else first_with_source source rest
  end.

Definition find (source issuer : string) : M (option KeyBundle.t) :=
  try_except
    (kbl ← getitem issuer; ret (first_with_source source kbl))
    KeyError (ret None).

(** *** load_keys *)



(** *** export_jwks, public_keys_keyjar *)

Section export.

(** [k.serialize(private)] of the [cryptojwt] library, with [J] the
    serialised form of a key. *)
Context {J : Type}.
Variable serialize : bool → Key.t → J.

(** The list returned under ["keys"]. *)
Definition export_jwks (private : bool) (issuer : string) : M (list J) :=
  kbl ← getitem issuer;
  ret (flat_map
         (λ kb,
            map (serialize private)
              (filter (λ k, Key.inactive_since k = 0%Z) (KeyBundle.keys kb)))
         kbl).

End export.


(** *** copy

    The loop runs in the fresh [KeyJar()] and reads the owners and their
    bundles off [self_]. *)
Definition copy (self_ : t) : outcome t :=
  match
    for_each (owner_list self_)
      (λ owner,
         match result (__getitem__ owner) self_ with
         | Return kbl =>
             __setitem__ owner
               (PyList (PyKeyBundle <$> (KeyBundle.copy <$> kbl)))
         | Raise e => raise e
         end)
      new
  with
  | (Return _, kj) => Return kj
  | (Raise e, _) => Raise e
  end.

(** *** get_jwt_decrypt_keys, get_jwt_verify_keys *)

(** The [aud] claim is a string or a list of strings. *)
Inductive audience :=
  | AudStr (s : string)
  | AudList (l : list string).

(** The claims of the payload that are read; [None] for a missing claim. *)
Record jwt_payload := mk_payload {
  iss : option string;
  aud : option audience;
  client_id : option string
}.

Record JWT := mk_jwt {
  headers : gmap string string;
  payload : jwt_payload
}.

(** The keyword arguments [get_jwt_verify_keys] looks at. *)
Record verify_kwargs := mk_kwargs {
  kw_allow_missing_kid : option bool;
  kw_no_kid_issuer : option (gmap string (option (list string)));
  kw_iss : option string;
  kw_trusting : option bool
}.

(** [for _e in _aud: keys = self._add_key(keys, _e, ...)] *)
Fixpoint add_key_for_each (keys : list Key.t) (_aud : list string)
    (use key_type kid : string)
    (no_kid_issuer : option (gmap string (option (list string))))
    (allow_missing_kid : bool) : M (list Key.t) :=
  match _aud with
  | [] => ret keys
  | _e :: rest =>
      keys ← _add_key keys _e use key_type kid no_kid_issuer
               allow_missing_kid;
      add_key_for_each keys rest use key_type kid no_kid_issuer
        allow_missing_kid
  end.

(** The loop [for ent in ["aud", "client_id"]: ...] of
    [get_jwt_verify_keys]. *)
Definition add_keys_for_claims (keys : list Key.t) (_payload : jwt_payload)
    (key_type kid : string)
    (no_kid_issuer : option (gmap string (option (list string))))
    (allow_missing_kid : bool) : M (list Key.t) :=
  keys ← match aud _payload with
         | None => ret keys
         | Some a =>
             let _aud := match a with AudStr s => [s] | AudList l => l end in
             add_key_for_each keys _aud "sig" key_type kid no_kid_issuer
               allow_missing_kid
         end;
  match client_id _payload with
  | None => ret keys
  | Some c =>
      _add_key keys c "sig" key_type kid no_kid_issuer allow_missing_kid
  end.

Section jwt_keys.

(** The truth value Python gives a bundle object, which is decided by the
    class in [oidcmsg.key_bundle]. *)
Variable bundle_true : KeyBundle.t → bool.

(** [jwe.alg2keytype], [jws.alg2keytype] and [k.is_public_key()] of the
    [cryptojwt] library; [k.is_private_key()] is [Key.priv]. *)
Variable jwe_alg2keytype : string → string.
Variable jws_alg2keytype : string → string.
Variable is_public_key : Key.t → bool.

(** [not self.find(...)]: nothing found, or a bundle that is false. *)
Definition nothing_found (found : option KeyBundle.t) : bool :=
  match found with
  | Some kb => negb (bundle_true kb)
  | None => true
  end.

(** The step [if "jku" in jwt.headers and _iss: ...] of
    [get_jwt_verify_keys], which may extend the store. *)
Definition trust_extension (jwt : JWT) (kwargs : verify_kwargs)
    (_iss : string) : M unit :=
  match headers jwt !! "jku" with
  | Some jku =>
      if PyStr.truthy _iss then
        found ← find jku _iss;
        if nothing_found found then
          try_except
            (match kw_trusting kwargs with
             | None => raise (Exn KeyError (Text "trusting"))
             | Some trusting =>
                 if (trusting : bool) then _ ← add_url _iss jku; ret tt
                 else ret tt
             end)
            KeyError (ret tt)
        else ret tt
      else ret tt
  | None => ret tt
  end.


Definition get_jwt_decrypt_keys (jwt : JWT) : M (list Key.t) :=
  let _key_type :=
    match headers jwt !! "alg" with
    | Some alg => jwe_alg2keytype alg
    | None => ""
    end in
  let _kid := default "" (headers jwt !! "kid") in
  keys ← get "enc" _key_type "" None None;
  keys ← _add_key keys "" "enc" _key_type _kid (Some {[ "" := None ]}) false;
  ret (filter (λ k, Key.priv k = true) keys).

Definition get_jwt_verify_keys (jwt : JWT) (kwargs : verify_kwargs)
    : M (list Key.t) :=
  let allow_missing_kid := default false (kw_allow_missing_kid kwargs) in
  let _key_type :=
    match headers jwt !! "alg" with
    | Some alg => jws_alg2keytype alg
    | None => ""
    end in
  let _kid := default "" (headers jwt !! "kid") in
  let nki := default ∅ (kw_no_kid_issuer kwargs) in
  keys ← get "sig" _key_type "" None None;
  let _payload := payload jwt in
  let _iss :=
    match iss _payload with
    | Some i => i
    | None => default "" (kw_iss kwargs)
    end in
  keys ← (if PyStr.truthy _iss then
            _add_key keys _iss "sig" _key_type _kid (Some nki)
              allow_missing_kid
          else ret keys);
  _ ← trust_extension jwt kwargs _iss;
  keys ← add_keys_for_claims keys _payload _key_type _kid (Some nki)
           allow_missing_kid;
  ret (filter (λ k, is_public_key k = true) keys).

End jwt_keys.

(** ** Notions used in the further statements *)

(** The test that guards the merge of my own symmetric keys in [get]. *)
Definition merges_own_keys (key_use key_type owner : string) : Prop :=
  use_class key_use = "enc" ∧ key_type = "oct" ∧ owner ≠ "".

(** The keys a lookup picks from a list of bundles, before any merge. *)
Definition picked (key_use key_type : string) (kid alg : option string)
    (kbl : list KeyBundle.t) : list Key.t :=
  ec_filter key_type alg
    (select_keys key_use (use_class key_use) key_type kid kbl).

(** The bundle [add_url] makes for a url. *)
Definition url_bundle (url : string) (kj : t) : KeyBundle.t :=
  KeyBundle.of_source url
    (if PyStr.contains "/localhost:" url || PyStr.contains "/localhost/" url
     then false else verify_ssl kj).


(** What [_add_key] appends when the token has no [kid] and the lookup
    found [kl]: nothing for no key, the key itself for a single key that is
    new, and for several keys what the caller's flags let in. *)
Definition no_kid_addition (keys : list Key.t) (owner : string)
    (no_kid_issuer : option (gmap string (option (list string))))
    (allow_missing_kid : bool) (kl : list Key.t) : list Key.t :=
  match kl with
  | [] => []
  | [kl0] => if bool_decide (kl0 ∈ keys) then [] else [kl0]
  | _ => accepted owner no_kid_issuer allow_missing_kid kl
  end.

(** What [_add_key] returns or raises, as a function of the store. *)
Definition add_key_outcome (keys : list Key.t)
    (owner use key_type kid : string)
    (no_kid_issuer : option (gmap string (option (list string))))
    (allow_missing_kid : bool) (kj : t) : outcome (list Key.t) :=
  match issuer_keys kj !! owner with
  | None => Return keys
  | Some _ =>
      if PyStr.truthy kid then
        match get_outcome use key_type owner (Some kid) None kj with
        | Return found => Return (append_new keys found)
        | Raise e => Raise e
        end
      else
        match get_outcome use key_type owner None None kj with
        | Return kl =>
            Return (keys ++ no_kid_addition keys owner no_kid_issuer
                              allow_missing_kid kl)
        | Raise _ => Return keys
        end
  end.

(** The issuer [get_jwt_verify_keys] works with: the [iss] claim, else the
    [iss] keyword argument, else [""]. *)
Definition token_issuer (jwt : JWT) (kwargs : verify_kwargs) : string :=
  match iss (payload jwt) with
  | Some i => i
  | None => default "" (kw_iss kwargs)
  end.

(** The bundle [add_symmetric] makes for one usage, [""] standing for no
    declared use, and the usages it makes bundles for. *)
Definition symmetric_bundle (b64e : string → string) (key use : string)
    : KeyBundle.t :=
  KeyBundle.of_keys [Key.mk "oct" use "" "" 0 (b64e key) true] true.

Definition usages_of (usage : option (list string)) : list string :=
  match usage with
  | None => [""]
  | Some usage => usage
  end.

End KeyJar.

(** ** Sample keys and stores *)

Module Sample.

Definition rsa_retired : Key.t :=
  Key.mk "RSA" "sig" "rsa-old" "" 1500 "n-old" false.
Definition rsa_current : Key.t :=
  Key.mk "RSA" "sig" "rsa-new" "" 0 "n-new" false.
Definition rsa_other : Key.t :=
  Key.mk "RSA" "sig" "rsa-other" "" 0 "n-other" false.
Definition shared_secret : Key.t :=
  Key.mk "oct" "" "" "" 0 "c2VjcmV0" true.

Definition store_of (entries : list (string * list KeyBundle.t)) : KeyJar.t :=
  KeyJar.with_issuer_keys KeyJar.new (list_to_map entries).

(** My own keys: one retired and one current signing key. *)
Definition rotated : KeyJar.t :=
  store_of [("", [KeyBundle.of_keys [rsa_retired; rsa_current] true])].

(** Two owners that differ in the trailing slash only. *)
Definition both_forms : KeyJar.t :=
  store_of [("https://idp", [KeyBundle.of_keys [rsa_current] true]);
            ("https://idp/", [KeyBundle.of_keys [rsa_other] true])].

(** One counterparty, no keys of my own. *)
Definition one_client : KeyJar.t :=
  store_of [("https://rp/", [KeyBundle.of_keys [shared_secret] true])].

(** A list that holds a bundle and a string. *)
Definition mixed_list : pyval :=
  PyList [PyKeyBundle (KeyBundle.of_keys [rsa_current] true);
          PyString "jwks"].

(** Two signing keys without a [kid] for one issuer. *)
Definition anon_1 : Key.t := Key.mk "RSA" "sig" "" "" 0 "n-1" false.
Definition anon_2 : Key.t := Key.mk "RSA" "sig" "" "" 0 "n-2" false.

Definition two_anonymous : KeyJar.t :=
  store_of [("https://op", [KeyBundle.of_keys [anon_1; anon_2] true])].

(** An issuer with an elliptic-curve key on each of two curves. *)
Definition ec_256 : Key.t := Key.mk "EC" "sig" "ec-1" "P-256" 0 "x-1" false.
Definition ec_384 : Key.t := Key.mk "EC" "sig" "ec-2" "P-384" 0 "x-2" false.

Definition two_curves : KeyJar.t :=
  store_of [("https://op", [KeyBundle.of_keys [ec_256; ec_384] true])].

End Sample.

(** ** Properties *)

Module KeyJarFacts.
Import KeyJar.

(** *** Running the monad *)

Lemma bind_run {A B} (m : M A) (f : A → M B) kj :
  (m ≫= f) kj =
  match m kj with
  | (Return a, kj') => f a kj'
  | (Raise e, kj') => (Raise e, kj')
  end.
Proof. reflexivity. Qed.

(** [try: kbl = self.issuer_keys[owner] except KeyError: handler] *)
Lemma try_getitem_run owner (handler : M (option (list KeyBundle.t))) kj :
  try_except (kbl ← getitem owner; ret (Some kbl)) KeyError handler kj =
  match issuer_keys kj !! owner with
  | Some kbl => (Return (Some kbl), kj)
  | None => handler kj
  end.
Proof.
  unfold try_except. rewrite bind_run. unfold getitem.
  destruct (issuer_keys kj !! owner); reflexivity.
Qed.

(** *** Lookup *)

Lemma lookup_owner_run owner kj :
  lookup_owner owner kj = (Return (resolve_owner owner kj), kj).
Proof.
  unfold lookup_owner, resolve_owner, toggle_slash.
  case_bool_decide as Hne.
  - rewrite bool_decide_eq_false_2 by done.
    rewrite try_getitem_run.
    destruct (issuer_keys kj !! owner); [done|].
    destruct (PyStr.endswith_slash owner); rewrite try_getitem_run;
      by destruct (issuer_keys kj !! _).
  - rewrite bool_decide_eq_true_2 by (by destruct (decide (owner = ""))).
    rewrite try_getitem_run. by destruct (issuer_keys kj !! owner).
Qed.

Lemma get_run key_use key_type owner kid alg kj :
  get key_use key_type owner kid alg kj =
  (get_outcome key_use key_type owner kid alg kj, kj).
Proof.
  unfold get, get_outcome. rewrite bind_run, lookup_owner_run.
  destruct (resolve_owner owner kj) as [_kj|]; [|done].
  cbv zeta.
  destruct (_ && _); [|done].
  rewrite bind_run. unfold getitem.
  by destruct (issuer_keys kj !! "").
Qed.

Lemma get_result key_use key_type owner kid alg kj :
  result (get key_use key_type owner kid alg) kj =
  get_outcome key_use key_type owner kid alg kj.
Proof. unfold result. by rewrite get_run. Qed.

(** C9: whatever the arguments, [get] leaves the store as it found it: the
    owner-to-bundles mapping, and every other field, is after the call what
    it was before, whether the call returns or raises. *)
Theorem get_leaves_store_unchanged key_use key_type owner kid alg kj :
  store_after (get key_use key_type owner kid alg) kj = kj
  ∧ issuer_keys (store_after (get key_use key_type owner kid alg) kj)
    = issuer_keys kj.
Proof. unfold store_after. by rewrite get_run. Qed.

(** Which lookups see an inactive key: those whose [key_use] is the
    literal ["sig"], and no others. *)
Lemma scan_keys_inactive key_use use kid _bkeys key :
  key ∈ scan_keys key_use use kid _bkeys →
  Key.inactive key = true → key_use = "sig".
Proof.
  induction _bkeys as [|key' rest IH]; cbn [scan_keys].
  - by intros ?%elem_of_nil.
  - intros Hin Hinactive.
    destruct (Key.inactive key') eqn:Hk'; cbn [andb] in Hin.
    + case_bool_decide as Hsig; [done|]. cbn [negb] in Hin. by apply IH.
    + destruct (_ || _); [|by apply IH].
      destruct (kid_given kid).
      * case_bool_decide.
        -- apply list_elem_of_singleton in Hin as ->. congruence.
        -- by apply IH.
      * apply elem_of_cons in Hin as [->|Hin]; [congruence|by apply IH].
Qed.

Lemma elem_of_flat_map {A B} (f : A → list B) (l : list A) y :
  y ∈ flat_map f l ↔ ∃ x, x ∈ l ∧ y ∈ f x.
Proof.
  rewrite list_elem_of_In, in_flat_map. split.
  - intros (x & Hx & Hy). exists x. by rewrite !list_elem_of_In.
  - intros (x & Hx & Hy). exists x. by rewrite <-!list_elem_of_In.
Qed.

Lemma get_inactive_only_for_sig key_use key_type owner kid alg kj lst key :
  result (get key_use key_type owner kid alg) kj = Return lst →
  key ∈ lst → Key.inactive key = true → key_use = "sig".
Proof.
  rewrite get_result. unfold get_outcome.
  destruct (resolve_owner owner kj) as [_kj|];
    [|by intros [= <-] ?%elem_of_nil].
  cbv zeta. intros Hlst Hin Hinactive.
  assert (∀ l, key ∈ ec_filter key_type alg
                       (select_keys key_use (use_class key_use) key_type
                          kid l) → key_use = "sig") as Hsel.
  { intros l Hkey. unfold ec_filter in Hkey.
    assert (key ∈ select_keys key_use (use_class key_use) key_type kid l)
      as (bundle & _ & Hscan)%elem_of_flat_map.
    { destruct alg; [|done]. case_bool_decide; [|done].
      by apply list_elem_of_filter in Hkey as [_ ?]. }
    by eapply scan_keys_inactive. }
  destruct (_ && _).
  - destruct (issuer_keys kj !! "") as [own|]; [|done].
    injection Hlst as <-. apply elem_of_app in Hin as [Hin|Hin]; [eauto|].
    apply elem_of_flat_map in Hin as (kb & _ & Hin).
    apply list_elem_of_filter in Hin as [[Hactive _] _]. congruence.
  - injection Hlst as <-. eauto.
Qed.

(** C1: on a store whose own keys are a retired signing key (inactive since
    1500) and a current one, a lookup for new signing returns the retired
    key, and a lookup for signature verification leaves it out; encryption
    and decryption lookups leave it out as well. *)
Theorem get_signing_returns_inactive_key :
  result (get_signing_key "RSA" "" None None) Sample.rotated
    = Return [Sample.rsa_retired; Sample.rsa_current]
  ∧ result (get_verify_key "RSA" "" None None) Sample.rotated
    = Return [Sample.rsa_current]
  ∧ result (get_encrypt_key "RSA" "" None None) Sample.rotated = Return []
  ∧ result (get_decrypt_key "RSA" "" None None) Sample.rotated = Return [].
Proof. repeat split; vm_compute; reflexivity. Qed.

(** *** Trailing slashes *)

Lemma append_slash_nonempty s : s +:+ "/" ≠ "".
Proof. by destruct s. Qed.

Lemma endswith_slash_append s : PyStr.endswith_slash (s +:+ "/") = true.
Proof.
  induction s as [|c s IH]; [done|].
  simpl. destruct (s +:+ "/") eqn:E; [by destruct s|]. exact IH.
Qed.

Lemma drop_last_append s : PyStr.drop_last (s +:+ "/") = s.
Proof.
  induction s as [|c s IH]; [done|].
  simpl. destruct (s +:+ "/") eqn:E; [by destruct s|]. by rewrite IH.
Qed.

Lemma toggle_slash_append s : toggle_slash (s +:+ "/") = s.
Proof.
  unfold toggle_slash. by rewrite endswith_slash_append, drop_last_append.
Qed.

Lemma resolve_owner_None owner kj :
  issuer_keys kj !! owner = None →
  issuer_keys kj !! toggle_slash owner = None →
  resolve_owner owner kj = None.
Proof.
  intros H1 H2. unfold resolve_owner. rewrite H1, H2. by case_bool_decide.
Qed.

Lemma resolve_owner_retry owner kj :
  owner ≠ "" → issuer_keys kj !! owner = None →
  resolve_owner owner kj = issuer_keys kj !! toggle_slash owner.
Proof.
  intros Hne H1. unfold resolve_owner. rewrite H1.
  by rewrite bool_decide_eq_false_2.
Qed.

Lemma resolve_owner_direct owner kbl kj :
  issuer_keys kj !! owner = Some kbl → resolve_owner owner kj = Some kbl.
Proof. intros H. unfold resolve_owner. by rewrite H. Qed.

(** [get] depends on the owner through the bundle list it resolves to and
    through the test [owner != ""] only. *)
Lemma get_outcome_ext key_use key_type o1 o2 kid alg kj :
  resolve_owner o1 kj = resolve_owner o2 kj → o1 ≠ "" → o2 ≠ "" →
  get_outcome key_use key_type o1 kid alg kj
  = get_outcome key_use key_type o2 kid alg kj.
Proof.
  intros Hr H1 H2. unfold get_outcome. rewrite Hr.
  by rewrite !(bool_decide_eq_true_2 (_ ≠ "")).
Qed.

(** C5, as the code has it: the owner as given comes first: when the
    store has it, [get] answers from the bundles of that very entry (the
    keys selected from them, followed for an encryption lookup of type
    ["oct"] by my own symmetric keys), whatever the store holds under the
    other form.  Only when the owner as given is unknown does [get] retry
    with the trailing slash toggled; when that form is unknown too the
    result is empty.  So an owner without a trailing slash and the same
    owner with one get the same answer unless the store knows both
    forms. *)
Theorem get_trailing_slash key_use key_type owner kid alg kj :
  owner ≠ "" →
  (∀ kbl,
     issuer_keys kj !! owner = Some kbl →
     result (get key_use key_type owner kid alg) kj
     = if bool_decide (use_class key_use = "enc")
          && bool_decide (key_type = "oct")
       then
         match issuer_keys kj !! "" with
         | Some own =>
             Return (ec_filter key_type alg
                       (select_keys key_use (use_class key_use) key_type
                          kid kbl)
                     ++ own_symmetric (use_class key_use) key_type own)
         | None => Raise (Exn KeyError (Text ""))
         end
       else
         Return (ec_filter key_type alg
                   (select_keys key_use (use_class key_use) key_type kid
                      kbl)))
  ∧ (PyStr.endswith_slash owner = false →
   ¬ (is_Some (issuer_keys kj !! owner)
      ∧ is_Some (issuer_keys kj !! (owner +:+ "/"))) →
   result (get key_use key_type owner kid alg) kj
   = result (get key_use key_type (owner +:+ "/") kid alg) kj)
  ∧ (issuer_keys kj !! owner = None →
     is_Some (issuer_keys kj !! toggle_slash owner) →
     toggle_slash owner ≠ "" →
     result (get key_use key_type owner kid alg) kj
     = result (get key_use key_type (toggle_slash owner) kid alg) kj)
  ∧ (issuer_keys kj !! owner = None →
     issuer_keys kj !! toggle_slash owner = None →
     result (get key_use key_type owner kid alg) kj = Return []).
Proof.
  intros Hne. rewrite !get_result. split; [|repeat split].
  - intros kbl Hkbl. unfold get_outcome.
    rewrite (resolve_owner_direct _ kbl) by done. cbv zeta.
    rewrite (bool_decide_eq_true_2 (owner ≠ "")) by done.
    by rewrite andb_true_r.
  - intros Hends Hboth.
    apply get_outcome_ext; [|done|apply append_slash_nonempty].
    unfold resolve_owner at 2. rewrite toggle_slash_append.
    rewrite (bool_decide_eq_false_2 (_ +:+ "/" = ""))
      by apply append_slash_nonempty.
    destruct (issuer_keys kj !! owner) as [kbl|] eqn:Ho.
    + rewrite (resolve_owner_direct _ kbl) by done.
      destruct (issuer_keys kj !! (owner +:+ "/")) eqn:Hs; [|done].
      destruct Hboth; split; eauto.
    + rewrite resolve_owner_retry by done.
      unfold toggle_slash. rewrite Hends.
      by destruct (issuer_keys kj !! (owner +:+ "/")).
  - intros Ho [kbl Ht] Htne.
    apply get_outcome_ext; [|done|done].
    rewrite resolve_owner_retry by done.
    by rewrite (resolve_owner_direct _ kbl).
  - intros Ho Ht. unfold get_outcome.
    by rewrite resolve_owner_None.
Qed.

(** The theorem at a store that knows ["https://rp/"] only, queried without
    the slash, and at a store that knows both forms of an owner, queried
    with the form without the slash. *)
Lemma get_trailing_slash_witness :
  result (get "sig" "" "https://rp" None None) Sample.one_client
  = result (get "sig" "" "https://rp/" None None) Sample.one_client
  ∧ result (get "sig" "" "https://idp" None None) Sample.both_forms
    = Return [Sample.rsa_current].
Proof.
  split.
  - refine (proj1 (proj2 (get_trailing_slash "sig" "" "https://rp" None
                            None Sample.one_client _)) _ _).
    + done.
    + reflexivity.
    + intros [[kbl H] _]. vm_compute in H. discriminate.
  - refine (proj1 (get_trailing_slash "sig" "" "https://idp" None None
                     Sample.both_forms _)
              [KeyBundle.of_keys [Sample.rsa_current] true] _).
    + done.
    + reflexivity.
Defined.

(** C5 as stated fails on a store that knows both forms of an owner: each
    query is answered from its own entry. *)
Lemma get_trailing_slash_both_forms :
  result (get "sig" "" "https://idp" None None) Sample.both_forms
    = Return [Sample.rsa_current]
  ∧ result (get "sig" "" "https://idp/" None None) Sample.both_forms
    = Return [Sample.rsa_other]
  ∧ result (get "sig" "" "https://idp" None None) Sample.both_forms
    ≠ result (get "sig" "" "https://idp/" None None) Sample.both_forms.
Proof. repeat split; vm_compute; [reflexivity..|discriminate]. Qed.

(** *** The merge of my own symmetric keys *)

(** C10, as the code has it: on a store without an entry for [""], an
    encryption or decryption lookup of type ["oct"] for a non-empty owner
    raises [KeyError] when the owner, as given or with its trailing slash
    toggled, is known to the store; for an owner unknown in both forms the
    lookup has already returned the empty list. *)
Theorem get_own_symmetric_keyerror key_use owner kid alg kj :
  issuer_keys kj !! "" = None →
  key_use ∈ ["dec"; "enc"] →
  owner ≠ "" →
  (is_Some (issuer_keys kj !! owner)
   ∨ is_Some (issuer_keys kj !! toggle_slash owner) →
   result (get key_use "oct" owner kid alg) kj
   = Raise (Exn KeyError (Text "")))
  ∧ (issuer_keys kj !! owner = None →
     issuer_keys kj !! toggle_slash owner = None →
     result (get key_use "oct" owner kid alg) kj = Return []).
Proof.
  intros Hown Huse Hne. rewrite get_result. split.
  - intros Hknown. unfold get_outcome.
    assert (is_Some (resolve_owner owner kj)) as [kbl ->].
    { destruct (issuer_keys kj !! owner) as [kbl|] eqn:Ho.
      - rewrite (resolve_owner_direct _ kbl); eauto.
      - rewrite resolve_owner_retry by done.
        destruct Hknown as [[? ?]|?]; [done|done]. }
    unfold use_class. rewrite (bool_decide_eq_true_2 _ Huse).
    rewrite Hown. rewrite (bool_decide_eq_true_2 (owner ≠ "")) by done.
    reflexivity.
  - intros Ho Ht. unfold get_outcome. by rewrite resolve_owner_None.
Qed.

(** The theorem at a store that knows ["https://rp/"] only. *)
Lemma get_own_symmetric_keyerror_witness :
  result (get "enc" "oct" "https://rp" None None) Sample.one_client
  = Raise (Exn KeyError (Text "")).
Proof.
  refine (proj1 (get_own_symmetric_keyerror "enc" "https://rp" None None
                   Sample.one_client _ _ _) _).
  - reflexivity.
  - set_solver.
  - done.
  - right. exists [KeyBundle.of_keys [Sample.shared_secret] true].
    reflexivity.
Defined.

(** C10 as stated fails for an owner the store does not know: the store has
    no entry for [""], the owner is not empty, and the encryption lookup of
    type ["oct"] returns the empty list. *)
Lemma get_own_symmetric_unknown_owner :
  issuer_keys Sample.one_client !! "" = None
  ∧ result (get "enc" "oct" "https://op" None None) Sample.one_client
    = Return [].
Proof. split; vm_compute; reflexivity. Qed.

(** *** Failing calls *)

(** C8, as the code has it: with an empty url, [add_url] raises the
    [KeyError] with the text "No jwks_uri" and leaves the store as it was,
    whoever the owner is. *)
Theorem add_url_empty_url owner kj :
  result (add_url owner "") kj = Raise (Exn KeyError (Text "No jwks_uri"))
  ∧ store_after (add_url owner "") kj = kj.
Proof. split; reflexivity. Qed.

(** C8 as stated fails: the exception [add_url] raises for an empty url is
    a [KeyError]; neither its class nor any base class of it is named
    ConfigurationError. *)
Lemma add_url_empty_url_not_configuration_error :
  ∃ e, result (add_url "https://idp" "") new = Raise e
       ∧ exn_cls e = KeyError
       ∧ ∀ c, c ∈ mro (exn_cls e) →
              class_name c ≠ "ConfigurationError".
Proof.
  eexists. split; [reflexivity|]. split; [reflexivity|].
  intros c Hc. simpl in Hc. set_unfold in Hc.
  destruct Hc as [->|[->|[->|[->|[]]]]]; discriminate.
Qed.

(** The type check of [__setitem__]: the loop raises at the first value
    that is not a bundle and otherwise runs through; it never touches the
    store. *)
Lemma check_bundles_run (val : list pyval) kj :
  for_each val
    (λ kb, if negb (is_bundle kb) then
             raise (Exn ValueError (Format "{} not an KeyBundle instance" kb))
           else ret tt) kj
  = match list_find (λ v, is_bundle v = false) val with
    | Some (_, v) =>
        (Raise (Exn ValueError (Format "{} not an KeyBundle instance" v)), kj)
    | None => (Return tt, kj)
    end.
Proof.
  induction val as [|v val IH]; [done|].
  cbn [for_each]. rewrite bind_run. cbn [list_find].
  case_decide as Hv.
  - by rewrite Hv.
  - apply not_false_is_true in Hv. rewrite Hv. cbn [negb].
    unfold ret at 1. rewrite IH.
    by destruct (list_find _ val) as [[? ?]|].
Qed.

(** C7, as the code has it: when some element of the value (or the value
    itself, if it is not a list) is not a key bundle, [__setitem__] raises a
    [ValueError] that names such an element, and the store, the owner's
    previous bundle list included, is left as it was. *)
Theorem setitem_rejects_non_bundle owner val kj :
  (∃ v, v ∈ as_list val ∧ is_bundle v = false) →
  ∃ v, v ∈ as_list val ∧ is_bundle v = false
       ∧ result (__setitem__ owner val) kj
         = Raise (Exn ValueError (Format "{} not an KeyBundle instance" v))
       ∧ store_after (__setitem__ owner val) kj = kj
       ∧ issuer_keys (store_after (__setitem__ owner val) kj) !! owner
         = issuer_keys kj !! owner.
Proof.
  intros (v & Hin & Hv).
  unfold result, store_after, __setitem__. cbv zeta.
  rewrite bind_run, check_bundles_run.
  destruct (list_find _ _) as [[i w]|] eqn:Hfind.
  - apply list_find_Some in Hfind as (Hi & Hw & _).
    exists w. split; [by eapply list_elem_of_lookup_2|]. done.
  - apply list_find_None in Hfind. rewrite Forall_forall in Hfind.
    by destruct (Hfind v).
Qed.

(** The theorem at a list whose second element is a string. *)
Lemma setitem_rejects_non_bundle_witness :
  ∃ v, v ∈ as_list Sample.mixed_list
       ∧ is_bundle v = false
       ∧ result (__setitem__ "https://rp/" Sample.mixed_list)
           Sample.one_client
         = Raise (Exn ValueError (Format "{} not an KeyBundle instance" v))
       ∧ store_after (__setitem__ "https://rp/" Sample.mixed_list)
           Sample.one_client
         = Sample.one_client
       ∧ issuer_keys
           (store_after (__setitem__ "https://rp/" Sample.mixed_list)
              Sample.one_client) !! "https://rp/"
         = issuer_keys Sample.one_client !! "https://rp/".
Proof.
  apply (setitem_rejects_non_bundle "https://rp/" Sample.mixed_list
           Sample.one_client).
  exists (PyString "jwks"). split; [|reflexivity].
  apply list_elem_of_further, list_elem_of_here.
Defined.

(** C7 as stated fails: the exception raised for a value that is not a
    bundle is a [ValueError], which is not an instance of [TypeError]. *)
Lemma setitem_raises_value_error :
  ∃ e, result (__setitem__ "https://rp/" (PyList [PyString "jwks"]))
         Sample.one_client = Raise e
       ∧ exn_cls e = ValueError
       ∧ isinstance e TypeError = false.
Proof. eexists. repeat split. Qed.

(** *** Purging outdated keys *)

Lemma with_issuer_keys_id kj : with_issuer_keys kj (issuer_keys kj) = kj.
Proof. by destruct kj. Qed.

Lemma with_issuer_keys_twice kj m1 m2 :
  with_issuer_keys (with_issuer_keys kj m1) m2 = with_issuer_keys kj m2.
Proof. reflexivity. Qed.

Lemma purge_owner_run when iss kbl kj :
  issuer_keys kj !! iss = Some kbl →
  purge_owner when iss kj
  = (Return tt,
     with_issuer_keys kj
       (partial_alter (λ o, o ≫= purged_entry (remove_after kj) when) iss
          (issuer_keys kj))).
Proof.
  intros Hiss. unfold purge_owner. rewrite bind_run. cbn [self].
  rewrite bind_run. unfold getitem. rewrite Hiss. cbv zeta.
  assert (∀ m, m = partial_alter
                     (λ o, o ≫= purged_entry (remove_after kj) when) iss
                     (issuer_keys kj)
               → (Return tt, with_issuer_keys kj m)
                 = (Return tt,
                    with_issuer_keys kj
                      (partial_alter
                         (λ o, o ≫= purged_entry (remove_after kj) when) iss
                         (issuer_keys kj)))) as Hcong by (by intros ? ->).
  case_bool_decide as Hne.
  - unfold assign. apply Hcong. apply map_eq. intros i.
    rewrite lookup_partial_alter, lookup_insert.
    case_decide; [|done]. rewrite Hiss. cbn. unfold purged_entry.
    by rewrite bool_decide_eq_true_2.
  - unfold delitem. rewrite Hiss. apply Hcong. apply map_eq. intros i.
    rewrite lookup_partial_alter, lookup_delete.
    case_decide; [|done]. rewrite Hiss. cbn. unfold purged_entry.
    by rewrite bool_decide_eq_false_2 by naive_solver.
Qed.

(** The loop over the owners purges the entry of every owner it visits and
    leaves the other entries alone. *)
Lemma for_each_purge_owner when isss :
  ∀ kj, NoDup isss →
        (∀ iss, iss ∈ isss → is_Some (issuer_keys kj !! iss)) →
        ∃ m, for_each isss (purge_owner when) kj
             = (Return tt, with_issuer_keys kj m)
             ∧ ∀ i, m !! i
                    = if decide (i ∈ isss)
                      then issuer_keys kj !! i
                           ≫= purged_entry (remove_after kj) when
                      else issuer_keys kj !! i.
Proof.
  induction isss as [|iss isss IH]; intros kj Hnd Hall.
  - exists (issuer_keys kj). split.
    + cbn. unfold ret. by rewrite with_issuer_keys_id.
    + intros i. rewrite decide_False; [done|]. apply not_elem_of_nil.
  - apply NoDup_cons in Hnd as [Hnotin Hnd].
    destruct (Hall iss) as [kbl Hkbl]; [apply list_elem_of_here|].
    cbn [for_each]. rewrite bind_run, (purge_owner_run _ _ kbl) by done.
    set (m1 := partial_alter _ iss (issuer_keys kj)).
    destruct (IH (with_issuer_keys kj m1) Hnd) as (m & Hrun & Hm).
    { intros i Hi. cbn. unfold m1. rewrite lookup_partial_alter_ne.
      - apply Hall. by apply list_elem_of_further.
      - intros ->. done. }
    exists m. split; [by rewrite Hrun|].
    intros i. rewrite Hm. cbn. unfold m1.
    destruct (decide (i = iss)) as [->|Hne].
    + rewrite decide_False by done.
      rewrite decide_True by apply list_elem_of_here.
      by rewrite lookup_partial_alter_eq.
    + rewrite lookup_partial_alter_ne by done.
      destruct (decide (i ∈ isss)) as [Hin|Hnin].
      * by rewrite decide_True by (by apply list_elem_of_further).
      * rewrite decide_False; [done|].
        intros [?|?]%elem_of_cons; done.
Qed.

Lemma remove_outdated_run when kj :
  remove_outdated when kj
  = (Return tt,
     with_issuer_keys kj
       (omap (purged_entry (remove_after kj) when) (issuer_keys kj))).
Proof.
  unfold remove_outdated. rewrite bind_run. cbn [owners].
  destruct (for_each_purge_owner when (owner_list kj) kj) as (m & -> & Hm).
  - apply NoDup_fst_map_to_list.
  - intros iss [[i kbl] [-> Hin]]%list_elem_of_fmap.
    apply elem_of_map_to_list in Hin. eauto.
  - f_equal. f_equal. apply map_eq. intros i.
    rewrite Hm, lookup_omap. case_decide as Hin; [done|].
    destruct (issuer_keys kj !! i) as [kbl|] eqn:Hi; [|done].
    destruct Hin. apply list_elem_of_fmap. exists (i, kbl). split; [done|].
    by apply elem_of_map_to_list.
Qed.

Lemma bundle_remove_outdated_idem after when kb :
  KeyBundle.remove_outdated after when
    (KeyBundle.remove_outdated after when kb)
  = KeyBundle.remove_outdated after when kb.
Proof.
  unfold KeyBundle.remove_outdated. cbn. f_equal.
  rewrite list_filter_filter. apply list_filter_iff. tauto.
Qed.

Lemma purge_bundles_idem after when kbl :
  purge_bundles after when (purge_bundles after when kbl)
  = purge_bundles after when kbl.
Proof.
  unfold purge_bundles. induction kbl as [|kb kbl IH]; [done|].
  cbn [map]. rewrite filter_cons. case_decide as Hlen; [|exact IH].
  cbn [map]. rewrite filter_cons, bundle_remove_outdated_idem.
  rewrite decide_True by done. by rewrite IH.
Qed.

Lemma purged_entry_idem after when kbl kbl' :
  purged_entry after when kbl = Some kbl' →
  purged_entry after when kbl' = Some kbl'.
Proof.
  unfold purged_entry. case_bool_decide as Hne; [|done].
  intros [= <-]. rewrite purge_bundles_idem.
  by rewrite bool_decide_eq_true_2.
Qed.

(** C6: two calls of [remove_outdated] with the same [when], one right
    after the other, leave the store in the state the first call left it
    in; both calls return without raising. *)
Theorem remove_outdated_idempotent when kj :
  store_after (remove_outdated when)
    (store_after (remove_outdated when) kj)
  = store_after (remove_outdated when) kj
  ∧ result (remove_outdated when) kj = Return tt
  ∧ result (remove_outdated when) (store_after (remove_outdated when) kj)
    = Return tt.
Proof.
  unfold store_after, result. rewrite !remove_outdated_run. cbn.
  split; [|done]. unfold with_issuer_keys. cbn. f_equal.
  apply map_eq. intros i. rewrite !lookup_omap.
  destruct (issuer_keys kj !! i) as [kbl|]; [|done]. cbn.
  destruct (purged_entry _ _ kbl) as [kbl'|] eqn:Hp; [|done]. cbn.
  by eapply purged_entry_idem.
Qed.

(** *** The store invariant *)

Lemma append_run owner kb kbl kj :
  issuer_keys kj !! owner = Some kbl →
  append owner kb kj
  = (Return tt,
     with_issuer_keys kj (<[owner := kbl ++ [kb]]> (issuer_keys kj))).
Proof.
  intros Ho. unfold append. rewrite bind_run. unfold getitem.
  by rewrite Ho.
Qed.

(** [try: self.issuer_keys[owner].append(kb)
     except KeyError: self.issuer_keys[owner] = [kb]] *)
Lemma add_kb_run owner kb kj :
  add_kb owner kb kj
  = (Return tt,
     with_issuer_keys kj
       (<[owner := default [] (issuer_keys kj !! owner) ++ [kb]]>
          (issuer_keys kj))).
Proof.
  unfold add_kb, try_except.
  destruct (issuer_keys kj !! owner) as [kbl|] eqn:Ho.
  - by rewrite (append_run _ _ kbl).
  - unfold append. rewrite bind_run. unfold getitem. by rewrite Ho.
Qed.

Lemma for_each_append owner (mk_bundle : string → KeyBundle.t) usage :
  ∀ kj kbl,
    issuer_keys kj !! owner = Some kbl →
    for_each usage (λ use, append owner (mk_bundle use)) kj
    = (Return tt,
       with_issuer_keys kj
         (<[owner := kbl ++ (mk_bundle <$> usage)]> (issuer_keys kj))).
Proof.
  induction usage as [|use usage IH]; intros kj kbl Ho.
  - cbn. unfold ret. rewrite app_nil_r, insert_id by done.
    by rewrite with_issuer_keys_id.
  - cbn [for_each]. rewrite bind_run, (append_run _ _ kbl) by done.
    rewrite (IH _ (kbl ++ [mk_bundle use])).
    + cbn. rewrite insert_insert_eq. by rewrite <-app_assoc.
    + cbn. by rewrite lookup_insert_eq.
Qed.

Lemma no_empty_owner_insert kj owner kbl :
  no_empty_owner kj → kbl ≠ [] →
  no_empty_owner (with_issuer_keys kj (<[owner := kbl]> (issuer_keys kj))).
Proof.
  intros Hinv Hne o l. cbn. rewrite lookup_insert.
  case_decide; [by intros [= <-]|]. apply Hinv.
Qed.

Lemma no_empty_owner_insert_nil kj m owner :
  ¬ no_empty_owner (with_issuer_keys kj (<[owner := []]> m)).
Proof.
  intros Hinv. apply (Hinv owner []); [|done].
  cbn. by rewrite lookup_insert_eq.
Qed.

Lemma app_singleton_nonempty {A} (l : list A) x : l ++ [x] ≠ [].
Proof. by destruct l. Qed.

Lemma no_empty_owner_add_kb owner kb kj :
  no_empty_owner kj → no_empty_owner (store_after (add_kb owner kb) kj).
Proof.
  intros Hinv. unfold store_after. rewrite add_kb_run. cbn [snd].
  apply no_empty_owner_insert; [done|]. apply app_singleton_nonempty.
Qed.

(** After a purge no owner is bound to an empty list, whatever the store
    looked like before. *)
Lemma no_empty_owner_remove_outdated when kj :
  no_empty_owner (store_after (remove_outdated when) kj).
Proof.
  unfold store_after. rewrite remove_outdated_run. cbn [snd].
  intros o l. cbn. rewrite lookup_omap_Some.
  intros (kbl & Hp & _). unfold purged_entry in Hp.
  case_bool_decide; [|done]. by injection Hp as <-.
Qed.

Lemma bundles_of_nonempty (val : list pyval) :
  val ≠ [] → list_find (λ v, is_bundle v = false) val = None →
  bundles_of val ≠ [].
Proof.
  destruct val as [|v val]; [done|]. intros _ Hfind.
  apply list_find_None, Forall_cons in Hfind as [Hv _].
  by destruct v.
Qed.

Lemma as_list_nonempty val : as_list val = [] → val = PyList [].
Proof. destruct val as [| | |l]; try done. cbn. by intros ->. Qed.

Lemma no_empty_owner_add_symmetric b64e owner key usage kj :
  no_empty_owner kj →
  no_empty_owner (store_after (add_symmetric b64e owner key usage) kj)
  ↔ ¬ (usage = Some [] ∧ issuer_keys kj !! owner = None).
Proof.
  intros Hinv. unfold store_after, add_symmetric.
  rewrite bind_run. cbn [has_owner].
  destruct (issuer_keys kj !! owner) as [kbl|] eqn:Ho.
  - rewrite bool_decide_eq_true_2 by eauto. cbn [negb].
    rewrite bind_run. unfold ret at 1.
    split; [intros _ [_ ?]; done|intros _].
    destruct usage as [usage|].
    + rewrite (for_each_append _ _ _ _ kbl) by done. cbn [snd].
      apply no_empty_owner_insert; [done|].
      specialize (Hinv _ _ Ho). by destruct kbl.
    + rewrite (append_run _ _ kbl) by done. cbn [snd].
      apply no_empty_owner_insert; [done|]. apply app_singleton_nonempty.
  - rewrite bool_decide_eq_false_2 by (by intros [? ?]). cbn [negb].
    rewrite bind_run. cbn [assign].
    destruct usage as [usage|].
    + rewrite (for_each_append _ _ _ _ []) by (cbn; apply lookup_insert_eq).
      cbn [snd]. rewrite with_issuer_keys_twice.
      cbn [issuer_keys with_issuer_keys].
      rewrite insert_insert_eq, app_nil_l.
      destruct usage as [|use usage].
      * split; [|intros []; done].
        intros Hbad. by apply no_empty_owner_insert_nil in Hbad.
      * split; [intros _ [[=] _]|intros _].
        by apply no_empty_owner_insert.
    + rewrite (append_run _ _ []) by (cbn; apply lookup_insert_eq).
      cbn [snd]. rewrite with_issuer_keys_twice.
      cbn [issuer_keys with_issuer_keys].
      rewrite insert_insert_eq.
      split; [intros _ [[=] _]|intros _].
      by apply no_empty_owner_insert.
Qed.

Lemma no_empty_owner_setitem owner val kj :
  no_empty_owner kj →
  no_empty_owner (store_after (__setitem__ owner val) kj) ↔ val ≠ PyList [].
Proof.
  intros Hinv. unfold store_after, __setitem__. cbv zeta.
  rewrite bind_run, check_bundles_run.
  destruct (list_find _ (as_list val)) as [[i v]|] eqn:Hfind.
  - cbn [snd]. split; [intros _ ->; done|done].
  - cbn [assign snd]. split.
    + intros Hafter ->. by apply no_empty_owner_insert_nil in Hafter.
    + intros Hval. apply no_empty_owner_insert; [done|].
      apply bundles_of_nonempty; [|done].
      intros Hnil. by apply as_list_nonempty in Hnil.
Qed.

(** C3, as the code has it: a store in which no owner is bound to an empty
    list is again such a store after [add_url], [add_kb], [import_jwks] and
    [remove_outdated], whether the call returns or raises, and after
    [add_symmetric] and [__setitem__] with two exceptions, which do bind an
    owner to an empty list: [add_symmetric] with an empty usage list for an
    owner the store does not know, and [__setitem__] with an empty list. *)
Theorem mutation_no_empty_owner b64e op kj :
  no_empty_owner kj →
  no_empty_owner (store_after (run_mutation b64e op) kj)
  ↔ ¬ binds_empty_list op kj.
Proof.
  intros Hinv. destruct op as [owner url|owner key usage|owner kb|owner val
                              |jwks issuer|when]; cbn [run_mutation].
  - cbn [binds_empty_list]. split; [tauto|intros _].
    unfold store_after, add_url.
    destruct (PyStr.truthy url); cbn [negb]; [|done].
    rewrite bind_run, bind_run. cbn [self].
    rewrite bind_run.
    match goal with
    | |- context [try_except (append owner ?kc) KeyError _] =>
        change (try_except (append owner kc) KeyError (assign owner [kc]))
          with (add_kb owner kc);
        rewrite (add_kb_run owner kc)
    end.
    cbn [snd ret]. apply no_empty_owner_insert; [done|].
    apply app_singleton_nonempty.
  - rewrite (no_empty_owner_add_symmetric b64e owner key usage kj Hinv).
    destruct usage as [[|use usage]|]; cbn [binds_empty_list];
      [split; [intros H ?; apply H; done|intros H [_ ?]; done]
      |split; [tauto|intros _ [[=] _]]
      |split; [tauto|intros _ [[=] _]]].
  - cbn [binds_empty_list]. split; [tauto|intros _].
    by apply no_empty_owner_add_kb.
  - rewrite (no_empty_owner_setitem owner val kj Hinv).
    destruct val as [| | |[|v l]]; cbn [binds_empty_list];
      try (split; [tauto|intros _; done]).
    split; [intros H; done|tauto].
  - cbn [binds_empty_list]. split; [tauto|intros _].
    unfold import_jwks. destruct (jwks !! "keys") as [_keys|]; [|done].
    unfold store_after. rewrite bind_run. cbn [self].
    match goal with
    | |- context [try_except (append issuer ?kc) KeyError _] =>
        change (try_except (append issuer kc) KeyError (assign issuer [kc]))
          with (add_kb issuer kc);
        rewrite (add_kb_run issuer kc)
    end.
    cbn [snd]. apply no_empty_owner_insert; [done|].
    apply app_singleton_nonempty.
  - cbn [binds_empty_list]. split; [tauto|intros _].
    apply no_empty_owner_remove_outdated.
Qed.

Lemma no_empty_owner_one_client : no_empty_owner Sample.one_client.
Proof.
  intros owner kbl. unfold Sample.one_client, Sample.store_of. cbn.
  rewrite lookup_insert. case_decide; [|by rewrite lookup_empty].
  by intros [= <-].
Qed.

(** The theorem at a store with one client, for a symmetric key added with
    two usages. *)
Lemma mutation_no_empty_owner_witness :
  no_empty_owner
    (store_after
       (run_mutation (λ secret, secret)
          (AddSymmetric "https://rp/" "c2VjcmV0" (Some ["sig"; "enc"])))
       Sample.one_client).
Proof.
  apply (mutation_no_empty_owner (λ secret, secret)
           (AddSymmetric "https://rp/" "c2VjcmV0" (Some ["sig"; "enc"]))
           Sample.one_client).
  - apply no_empty_owner_one_client.
  - cbn. tauto.
Defined.

(** C3 as stated fails: [__setitem__] with an empty list binds the owner to
    the empty list, in a store that had no such entry before. *)
Lemma setitem_empty_list_binds_empty_list :
  no_empty_owner Sample.one_client
  ∧ result (__setitem__ "https://rp/" (PyList [])) Sample.one_client
    = Return tt
  ∧ issuer_keys
      (store_after (__setitem__ "https://rp/" (PyList [])) Sample.one_client)
    !! "https://rp/" = Some []
  ∧ ¬ no_empty_owner
        (store_after (__setitem__ "https://rp/" (PyList [])) Sample.one_client).
Proof.
  split; [apply no_empty_owner_one_client|].
  split; [reflexivity|]. split; [reflexivity|].
  intros Hinv. by apply (Hinv "https://rp/" []).
Qed.

(** *** Equality *)

Lemma get_issuer_keys_result iss kj :
  result (get_issuer_keys iss) kj
  = match issuer_keys kj !! iss with
    | Some kbl => Return (flat_map KeyBundle.keys kbl)
    | None => Raise (Exn KeyError (Text iss))
    end.
Proof.
  unfold result, get_issuer_keys. rewrite bind_run. unfold getitem.
  by destruct (issuer_keys kj !! iss).
Qed.

Lemma eq_issuers_run a b isss :
  (∀ iss, iss ∈ isss →
          is_Some (issuer_keys a !! iss) ∧ is_Some (issuer_keys b !! iss)) →
  eq_issuers a b isss = Return (forallb (issuer_agrees a b) isss).
Proof.
  induction isss as [|iss isss IH]; intros Hall; [done|].
  cbn [eq_issuers forallb]. rewrite !get_issuer_keys_result.
  destruct (Hall iss) as [[ka Ha] [kb Hb]]; [apply list_elem_of_here|].
  unfold issuer_agrees at 1, keys_of. rewrite Ha, Hb. cbn [default].
  destruct (bool_decide (length _ = length _)); cbn [negb andb]; [|done].
  destruct (existsb _ _); cbn [negb]; [|done].
  apply IH. intros i Hi. apply Hall. by apply list_elem_of_further.
Qed.

Lemma elem_of_owner_list kj iss :
  iss ∈ owner_list kj ↔ iss ∈ dom (issuer_keys kj).
Proof.
  unfold owner_list. rewrite elem_of_dom, list_elem_of_fmap. split.
  - intros [[i kbl] [-> Hin]]. apply elem_of_map_to_list in Hin. eauto.
  - intros [kbl Hkbl]. exists (iss, kbl). split; [done|].
    by apply elem_of_map_to_list.
Qed.

Lemma eq_run a b :
  __eq__ a (AKeyJar b)
  = Return (bool_decide (dom (issuer_keys a) = dom (issuer_keys b))
            && forallb (issuer_agrees a b) (owner_list a)).
Proof.
  unfold __eq__. case_bool_decide as Hdom; cbn [negb andb]; [|done].
  apply eq_issuers_run. intros iss Hiss%elem_of_owner_list.
  split; apply elem_of_dom; [done|by rewrite <-Hdom].
Qed.

Lemma issuer_agrees_true a b iss :
  issuer_agrees a b iss = true
  ↔ length (keys_of a iss) = length (keys_of b iss)
    ∧ ∃ key, key ∈ keys_of a iss ∧ key ∈ keys_of b iss.
Proof.
  unfold issuer_agrees.
  rewrite andb_true_iff, bool_decide_eq_true, existsb_exists.
  split; intros [Hlen (key & Hin & Hkey)]; (split; [done|]); exists key.
  - apply list_elem_of_In in Hin. by apply bool_decide_eq_true in Hkey.
  - split; [by apply list_elem_of_In|by apply bool_decide_eq_true].
Qed.

Lemma eq_true_iff a b : __eq__ a (AKeyJar b) = Return true ↔ weakly_equal a b.
Proof.
  rewrite eq_run. unfold weakly_equal. split.
  - intros [= [Hdom Hall]%andb_true_iff].
    apply bool_decide_eq_true in Hdom. split; [done|].
    intros iss Hiss. apply issuer_agrees_true.
    rewrite forallb_forall in Hall. apply Hall.
    by apply list_elem_of_In, elem_of_owner_list.
  - intros [Hdom Hall]. f_equal. apply andb_true_iff. split.
    + by apply bool_decide_eq_true.
    + apply forallb_forall. intros iss Hiss%list_elem_of_In.
      apply issuer_agrees_true, Hall. by apply elem_of_owner_list.
Qed.

Lemma keys_of_single_key_store owner key :
  keys_of (single_key_store owner key) owner = [key].
Proof.
  unfold keys_of, single_key_store. cbn.
  by rewrite lookup_singleton_eq.
Qed.

(** C4: comparing two stores returns [True] exactly when they have the same
    owners and, for every owner, as many keys on both sides and at least one
    key in common, and returns [False] otherwise; it never raises.  Two
    stores that hold one key each for the same single owner, the two keys
    being different, compare unequal. *)
Theorem eq_iff_weakly_equal a b :
  (__eq__ a (AKeyJar b) = Return true ↔ weakly_equal a b)
  ∧ (__eq__ a (AKeyJar b) = Return false ↔ ¬ weakly_equal a b)
  ∧ (∀ owner k1 k2,
       k1 ≠ k2 →
       __eq__ (single_key_store owner k1) (AKeyJar (single_key_store owner k2))
       = Return false).
Proof.
  assert (∀ a b, __eq__ a (AKeyJar b) = Return false ↔ ¬ weakly_equal a b)
    as Hfalse.
  { intros a' b'. rewrite <-eq_true_iff, eq_run.
    destruct (_ && _); split; try done. }
  split; [apply eq_true_iff|]. split; [apply Hfalse|].
  intros owner k1 k2 Hne. apply Hfalse. intros [_ Hall].
  destruct (Hall owner) as [_ (key & H1 & H2)].
  { unfold single_key_store. cbn. rewrite dom_singleton_L. set_solver. }
  rewrite keys_of_single_key_store in H1, H2.
  apply list_elem_of_singleton in H1, H2. congruence.
Qed.

(** The theorem at two stores for owner ["a"] with different RSA keys. *)
Lemma eq_iff_weakly_equal_witness :
  __eq__ (single_key_store "a" Sample.rsa_current)
     (AKeyJar (single_key_store "a" Sample.rsa_other))
  = Return false.
Proof.
  refine (proj2 (proj2 (eq_iff_weakly_equal new new))
            "a" Sample.rsa_current Sample.rsa_other _).
  discriminate.
Defined.

(** *** Resolving keys for a token without a kid *)

Lemma contains_run owner kj :
  __contains__ owner kj
  = (Return (bool_decide (is_Some (issuer_keys kj !! owner))), kj).
Proof.
  unfold __contains__. rewrite bind_run. cbn [has_owner].
  by destruct (bool_decide _).
Qed.

Lemma add_key_no_kid_run keys owner use key_type nki allow kl kj :
  issuer_keys kj !! owner ≠ None →
  get_outcome use key_type owner None None kj = Return kl →
  (1 < length kl)%nat →
  _add_key keys owner use key_type "" nki allow kj
  = (Return (keys ++ accepted owner nki allow kl), kj).
Proof.
  intros Hknown Hget Hlen. unfold _add_key.
  rewrite bind_run, contains_run.
  rewrite bool_decide_eq_true_2
    by (by destruct (issuer_keys kj !! owner); eauto).
  cbn [negb]. change (PyStr.truthy "") with false. cbv iota.
  rewrite bind_run.
  unfold try_except. rewrite bind_run, get_run, Hget.
  unfold ret.
  destruct kl as [|kl0 [|kl1 kl]]; cbn in Hlen; [lia|lia|].
  rewrite !bool_decide_eq_false_2 by done.
  unfold accepted. destruct allow; [done|].
  destruct nki as [d|]; cbn [nki_given mbind option_bind default];
    [|by rewrite app_nil_r].
  change (id d) with d.
  case_bool_decide as Hd; cbn [negb].
  { subst d. rewrite lookup_empty. by rewrite app_nil_r. }
  destruct (d !! owner) as [[[|kid0 allowed]|]|]; cbn [kids_given default];
    by rewrite ?app_nil_r.
Qed.

(** C2: when the token has no kid and the lookup for the owner finds more
    than one key, [_add_key] adds to the candidates: every key found, if
    the caller allows a missing kid; otherwise, if the owner has an entry in
    the allow-list, the keys whose kid the entry lists, or every key found
    when the entry is empty; and nothing at all when the caller does not
    allow a missing kid and the owner has no entry in the allow-list.  The
    store is left as it was. *)
Theorem add_key_without_kid keys owner use key_type nki allow kl kj :
  result (get use key_type owner None None) kj = Return kl →
  (1 < length kl)%nat →
  (is_Some (issuer_keys kj !! owner) →
   result (_add_key keys owner use key_type "" nki allow) kj
   = Return (keys ++ accepted owner nki allow kl))
  ∧ (allow = false → nki ≫= (λ d, d !! owner) = None →
     result (_add_key keys owner use key_type "" nki allow) kj = Return keys)
  ∧ store_after (_add_key keys owner use key_type "" nki allow) kj = kj.
Proof.
  intros Hget Hlen. rewrite get_result in Hget.
  destruct (issuer_keys kj !! owner) as [kbl|] eqn:Ho.
  - assert (issuer_keys kj !! owner ≠ None) as Hknown by (by rewrite Ho).
    unfold result, store_after.
    rewrite (add_key_no_kid_run _ _ _ _ _ _ kl) by done.
    split; [done|]. split; [|done].
    intros -> Hnki. cbn [fst]. unfold accepted. rewrite Hnki.
    by rewrite app_nil_r.
  - split; [by intros [? ?]|].
    unfold result, store_after, _add_key.
    rewrite bind_run, contains_run, Ho.
    rewrite bool_decide_eq_false_2 by (by intros [? ?]).
    done.
Qed.

(** The theorem at an issuer with two signing keys that carry no kid, for
    a caller that neither allows a missing kid nor gives an allow-list. *)
Lemma add_key_without_kid_witness :
  result (_add_key [] "https://op" "sig" "RSA" "" None false)
    Sample.two_anonymous = Return [].
Proof.
  refine (proj1 (proj2 (add_key_without_kid [] "https://op" "sig" "RSA"
                          None false [Sample.anon_1; Sample.anon_2]
                          Sample.two_anonymous _ _)) _ _).
  - reflexivity.
  - cbn. lia.
  - reflexivity.
  - reflexivity.
Defined.

End KeyJarFacts.

(** ** Further properties of the store *)

Module KeyJarLaws.
Import KeyJar KeyJarFacts.

(** *** What a lookup returns *)

Lemma scan_keys_use key_use use kid _bkeys key :
  key ∈ scan_keys key_use use kid _bkeys →
  Key.use key = "" ∨ Key.use key = use.
Proof.
  induction _bkeys as [|key' rest IH]; cbn [scan_keys].
  - by intros ?%elem_of_nil.
  - destruct (_ && _); [done|].
    destruct (negb (PyStr.truthy (Key.use key')) || _) eqn:Huse; [|done].
    assert (Key.use key' = "" ∨ Key.use key' = use) as Hkey'.
    { apply orb_true_iff in Huse as [Hu|Hu].
      - left. unfold PyStr.truthy in Hu. apply negb_true_iff in Hu.
        apply negb_false_iff in Hu. by apply bool_decide_eq_true in Hu.
      - right. by apply bool_decide_eq_true in Hu. }
    clear Huse. destruct (kid_given kid).
    + case_bool_decide; [|done].
      by intros ->%list_elem_of_singleton.
    + by intros [->|?]%elem_of_cons; [|apply IH].
Qed.

Lemma scan_keys_kid key_use use kid _bkeys :
  kid_given kid = true →
  (length (scan_keys key_use use kid _bkeys) ≤ 1)%nat
  ∧ ∀ key, key ∈ scan_keys key_use use kid _bkeys →
           Some (Key.kid key) = kid.
Proof.
  intros Hkid. induction _bkeys as [|key' rest [IHlen IHkid]];
    cbn [scan_keys].
  - split; [cbn; lia|]. by intros key ?%elem_of_nil.
  - destruct (_ && _); [done|]. destruct (_ || _); [|done].
    rewrite Hkid. case_bool_decide as Heq; [|done].
    split; [cbn; lia|]. by intros key ->%list_elem_of_singleton.
Qed.

Lemma ec_filter_subseteq key_type alg lst key :
  key ∈ ec_filter key_type alg lst → key ∈ lst.
Proof.
  unfold ec_filter. destruct alg; [|done]. case_bool_decide; [|done].
  by intros [_ ?]%list_elem_of_filter.
Qed.

Lemma ec_filter_length key_type alg lst :
  (length (ec_filter key_type alg lst) ≤ length lst)%nat.
Proof.
  unfold ec_filter. destruct alg; [|done]. case_bool_decide; [|done].
  apply length_filter.
Qed.

Lemma select_keys_length_kid key_use use key_type kid _kj :
  kid_given kid = true →
  (length (select_keys key_use use key_type kid _kj) ≤ length _kj)%nat.
Proof.
  intros Hkid. unfold select_keys.
  induction _kj as [|bundle _kj IH]; [done|].
  cbn [flat_map]. rewrite length_app. cbn [length].
  match goal with
  | |- context [scan_keys ?a ?b ?c ?d] =>
      pose proof (proj1 (scan_keys_kid a b c d Hkid))
  end.
  lia.
Qed.

(** The shape of a lookup that returns. *)
Lemma get_Return_inv key_use key_type owner kid alg kj lst :
  get_outcome key_use key_type owner kid alg kj = Return lst →
  lst = []
  ∨ ∃ _kj, resolve_owner owner kj = Some _kj
           ∧ ((¬ (use_class key_use = "enc" ∧ key_type = "oct"
                  ∧ owner ≠ "")
               ∧ lst = ec_filter key_type alg
                         (select_keys key_use (use_class key_use) key_type
                            kid _kj))
              ∨ (use_class key_use = "enc" ∧ key_type = "oct" ∧ owner ≠ ""
                 ∧ ∃ own, issuer_keys kj !! "" = Some own
                          ∧ lst = ec_filter key_type alg
                                    (select_keys key_use (use_class key_use)
                                       key_type kid _kj)
                                  ++ own_symmetric (use_class key_use)
                                       key_type own)).
Proof.
  unfold get_outcome.
  destruct (resolve_owner owner kj) as [_kj|]; [|intros [= <-]; by left].
  cbv zeta. intros Hlst. right. exists _kj. split; [done|].
  destruct (bool_decide (use_class key_use = "enc")) eqn:H1;
    [apply bool_decide_eq_true in H1|apply bool_decide_eq_false in H1];
    cbn [andb] in Hlst; [|left; split; [tauto|congruence]].
  destruct (bool_decide (key_type = "oct")) eqn:H2;
    [apply bool_decide_eq_true in H2|apply bool_decide_eq_false in H2];
    cbn [andb] in Hlst; [|left; split; [tauto|congruence]].
  destruct (bool_decide (owner ≠ "")) eqn:H3;
    [apply bool_decide_eq_true in H3|apply bool_decide_eq_false in H3];
    [|left; split; [tauto|congruence]].
  destruct (issuer_keys kj !! "") as [own|]; [|done].
  right. repeat split; try done. exists own. split; [done|congruence].
Qed.

(** X1: a lookup raises in one situation only: an encryption or decryption
    lookup of type ["oct"] for a non-empty owner that resolves to an entry,
    in a store without an entry for [""]; the exception is the [KeyError]
    of the missing key [""]. *)
Theorem get_raises_only_without_own_keys key_use key_type owner kid alg kj e :
  result (get key_use key_type owner kid alg) kj = Raise e →
  e = Exn KeyError (Text "")
  ∧ use_class key_use = "enc" ∧ key_type = "oct" ∧ owner ≠ ""
  ∧ issuer_keys kj !! "" = None
  ∧ (is_Some (issuer_keys kj !! owner)
     ∨ is_Some (issuer_keys kj !! toggle_slash owner)).
Proof.
  rewrite get_result. unfold get_outcome.
  destruct (resolve_owner owner kj) as [_kj|] eqn:Hres; [|done].
  cbv zeta.
  destruct (bool_decide (use_class key_use = "enc")) eqn:H1;
    [apply bool_decide_eq_true in H1|done].
  destruct (bool_decide (key_type = "oct")) eqn:H2;
    [apply bool_decide_eq_true in H2|done].
  destruct (bool_decide (owner ≠ "")) eqn:H3;
    [apply bool_decide_eq_true in H3|done].
  cbn [andb]. destruct (issuer_keys kj !! "") eqn:Hown; [done|].
  intros [= <-]. repeat split; try done.
  unfold resolve_owner in Hres.
  destruct (issuer_keys kj !! owner); [left; eauto|].
  rewrite bool_decide_eq_false_2 in Hres by done. right. eauto.
Qed.

Lemma get_raises_only_without_own_keys_witness :
  Exn KeyError (Text "") = Exn KeyError (Text "")
  ∧ use_class "dec" = "enc" ∧ "oct" = "oct" ∧ "https://rp" ≠ ""
  ∧ issuer_keys Sample.one_client !! "" = None
  ∧ (is_Some (issuer_keys Sample.one_client !! "https://rp")
     ∨ is_Some (issuer_keys Sample.one_client !! toggle_slash "https://rp")).
Proof.
  apply (get_raises_only_without_own_keys "dec" "oct" "https://rp" None None
           Sample.one_client).
  reflexivity.
Defined.

(** X2: every key a lookup returns has no declared use or the use class of
    the lookup: ["enc"] for [key_use] ["enc"] and ["dec"], ["sig"] for every
    other [key_use]. *)
Theorem get_respects_declared_use key_use key_type owner kid alg kj lst key :
  result (get key_use key_type owner kid alg) kj = Return lst →
  key ∈ lst →
  Key.use key = "" ∨ Key.use key = use_class key_use.
Proof.
  rewrite get_result.
  intros [->|(_kj & _ & [[_ ->]|(_ & _ & _ & own & _ & ->)])]%get_Return_inv
    Hin.
  - by apply elem_of_nil in Hin.
  - apply ec_filter_subseteq, elem_of_flat_map in Hin as (b & _ & Hin).
    by eapply scan_keys_use.
  - apply elem_of_app in Hin as [Hin|Hin].
    + apply ec_filter_subseteq, elem_of_flat_map in Hin as (b & _ & Hin).
      by eapply scan_keys_use.
    + apply elem_of_flat_map in Hin as (kb & _ & Hin).
      apply list_elem_of_filter in Hin as [[_ [Hu|Hu]] _]; [left|by right].
      unfold PyStr.truthy in Hu. apply negb_false_iff in Hu.
      by apply bool_decide_eq_true in Hu.
Qed.

Lemma get_respects_declared_use_witness :
  Key.use Sample.rsa_current = ""
  ∨ Key.use Sample.rsa_current = use_class "ver".
Proof.
  apply (get_respects_declared_use "ver" "RSA" "" None None Sample.rotated
           [Sample.rsa_current] Sample.rsa_current).
  - reflexivity.
  - apply list_elem_of_here.
Defined.

(** X3: a lookup with a non-empty [kid], other than the encryption lookup
    of type ["oct"] for a non-empty owner, returns keys with that [kid]
    only, and at most one key for each bundle of the owner. *)
Theorem get_with_kid key_use key_type owner id alg kj lst :
  id ≠ "" →
  ¬ (use_class key_use = "enc" ∧ key_type = "oct" ∧ owner ≠ "") →
  result (get key_use key_type owner (Some id) alg) kj = Return lst →
  (∀ key, key ∈ lst → Key.kid key = id)
  ∧ (∀ kbl, resolve_owner owner kj = Some kbl →
            (length lst ≤ length kbl)%nat).
Proof.
  intros Hid Hplain. rewrite get_result.
  assert (kid_given (Some id) = true) as Hkid.
  { cbn. unfold PyStr.truthy. by rewrite bool_decide_eq_false_2. }
  intros [->|(_kj & Hres & [[_ ->]|(? & ? & ? & _)])]%get_Return_inv;
    [| |tauto].
  - split; [by intros key ?%elem_of_nil|]. intros kbl _. cbn. lia.
  - split.
    + intros key Hin.
      apply ec_filter_subseteq, elem_of_flat_map in Hin as (b & _ & Hin).
      apply (proj2 (scan_keys_kid _ _ _ _ Hkid)) in Hin. congruence.
    + intros kbl Hkbl. rewrite Hres in Hkbl. injection Hkbl as <-.
      etrans; [apply ec_filter_length|].
      by apply select_keys_length_kid.
Qed.

Lemma get_with_kid_witness :
  (∀ key, key ∈ [Sample.rsa_current] → Key.kid key = "rsa-new")
  ∧ (∀ kbl, resolve_owner "" Sample.rotated = Some kbl →
            (length [Sample.rsa_current] ≤ length kbl)%nat).
Proof.
  apply (get_with_kid "sig" "RSA" "" "rsa-new" None Sample.rotated
           [Sample.rsa_current]).
  - done.
  - intros (_ & _ & H). done.
  - reflexivity.
Defined.

(** X4: a lookup of type ["EC"] with an algorithm returns only keys on the
    curve named after the algorithm: ["P-"] followed by the algorithm name
    without its first two characters. *)
Theorem get_ec_curve key_use owner kid a kj lst key :
  result (get key_use "EC" owner kid (Some a)) kj = Return lst →
  key ∈ lst →
  Key.crv key = "P-" +:+ PyStr.slice_from 2 a.
Proof.
  rewrite get_result.
  intros [->|(_kj & _ & [[_ ->]|(_ & [=] & _)])]%get_Return_inv Hin.
  - by apply elem_of_nil in Hin.
  - unfold ec_filter in Hin. rewrite bool_decide_eq_true_2 in Hin by done.
    by apply list_elem_of_filter in Hin as [<- _].
Qed.

Lemma get_ec_curve_witness : Key.crv Sample.ec_256 = "P-256".
Proof.
  apply (get_ec_curve "ver" "https://op" None "ES256" Sample.two_curves
           [Sample.ec_256] Sample.ec_256).
  - reflexivity.
  - apply list_elem_of_here.
Defined.

(** X5: a lookup whose [key_use] is not the literal ["sig"] returns active
    keys only. *)
Theorem get_other_uses_skip_inactive key_use key_type owner kid alg kj lst
    key :
  key_use ≠ "sig" →
  result (get key_use key_type owner kid alg) kj = Return lst →
  key ∈ lst →
  Key.inactive_since key = 0%Z.
Proof.
  intros Hne Hget Hin.
  destruct (Key.inactive key) eqn:Hk.
  - destruct Hne. by eapply get_inactive_only_for_sig.
  - unfold Key.inactive in Hk. apply negb_false_iff in Hk.
    by apply Z.eqb_eq in Hk.
Qed.

Lemma get_other_uses_skip_inactive_witness :
  Key.inactive_since Sample.rsa_current = 0%Z.
Proof.
  apply (get_other_uses_skip_inactive "ver" "RSA" "" None None Sample.rotated
           [Sample.rsa_current] Sample.rsa_current).
  - done.
  - reflexivity.
  - apply list_elem_of_here.
Defined.

(** *** Adding bundles and finding them again *)

Lemma select_keys_app key_use use key_type kid l1 l2 :
  select_keys key_use use key_type kid (l1 ++ l2)
  = select_keys key_use use key_type kid l1
    ++ select_keys key_use use key_type kid l2.
Proof. unfold select_keys. apply flat_map_app. Qed.

Lemma ec_filter_app key_type alg l1 l2 :
  ec_filter key_type alg (l1 ++ l2)
  = ec_filter key_type alg l1 ++ ec_filter key_type alg l2.
Proof.
  unfold ec_filter. destruct alg; [|done]. case_bool_decide; [|done].
  apply filter_app.
Qed.

Lemma picked_app key_use key_type kid alg l1 l2 :
  picked key_use key_type kid alg (l1 ++ l2)
  = picked key_use key_type kid alg l1 ++ picked key_use key_type kid alg l2.
Proof. unfold picked. by rewrite select_keys_app, ec_filter_app. Qed.

Lemma picked_nil key_use key_type kid alg :
  picked key_use key_type kid alg [] = [].
Proof.
  unfold picked, ec_filter. cbn. destruct alg; [|done].
  by case_bool_decide.
Qed.

Lemma get_outcome_plain key_use key_type owner kid alg kj :
  ¬ merges_own_keys key_use key_type owner →
  get_outcome key_use key_type owner kid alg kj
  = Return (picked key_use key_type kid alg
              (default [] (resolve_owner owner kj))).
Proof.
  intros Hplain. unfold get_outcome, merges_own_keys in *.
  destruct (resolve_owner owner kj) as [_kj|];
    [|by rewrite picked_nil]. cbv zeta.
  destruct (bool_decide (use_class key_use = "enc")) eqn:H1;
    [apply bool_decide_eq_true in H1|done].
  destruct (bool_decide (key_type = "oct")) eqn:H2;
    [apply bool_decide_eq_true in H2|done].
  destruct (bool_decide (owner ≠ "")) eqn:H3;
    [apply bool_decide_eq_true in H3|done].
  tauto.
Qed.

(** X6: for a lookup that does not merge my own symmetric keys, adding a
    bundle to an owner the store knows extends the answer for that owner by
    the keys picked from the new bundle, after the keys of the earlier
    bundles.  For an owner the store did not know the answer becomes the
    keys picked from the new bundle alone, even if the lookup was answered
    before from the entry with the trailing slash toggled. *)
Theorem get_after_add_kb key_use key_type owner kid alg kb kj lst :
  ¬ merges_own_keys key_use key_type owner →
  result (get key_use key_type owner kid alg) kj = Return lst →
  result (get key_use key_type owner kid alg)
    (store_after (add_kb owner kb) kj)
  = Return ((if bool_decide (is_Some (issuer_keys kj !! owner))
             then lst else [])
            ++ picked key_use key_type kid alg [kb]).
Proof.
  intros Hplain. rewrite !get_result, !get_outcome_plain by done.
  intros [= <-]. f_equal.
  unfold store_after. rewrite add_kb_run. cbn [snd].
  rewrite (resolve_owner_direct _
             (default [] (issuer_keys kj !! owner) ++ [kb]))
    by (cbn; apply lookup_insert_eq).
  cbn [default from_option id]. rewrite picked_app. f_equal.
  destruct (issuer_keys kj !! owner) as [kbl|] eqn:Ho.
  - rewrite bool_decide_eq_true_2 by eauto.
    by rewrite (resolve_owner_direct _ kbl).
  - rewrite bool_decide_eq_false_2 by (by intros [? ?]).
    apply picked_nil.
Qed.

Lemma get_after_add_kb_witness :
  result (get "ver" "RSA" "https://rp" None None)
    (store_after
       (add_kb "https://rp" (KeyBundle.of_keys [Sample.rsa_current] true))
       Sample.one_client)
  = Return ((if bool_decide
                  (is_Some (issuer_keys Sample.one_client !! "https://rp"))
             then [] else [])
            ++ picked "ver" "RSA" None None
                 [KeyBundle.of_keys [Sample.rsa_current] true]).
Proof.
  apply (get_after_add_kb "ver" "RSA" "https://rp" None None
           (KeyBundle.of_keys [Sample.rsa_current] true) Sample.one_client).
  - intros ([=] & _).
  - reflexivity.
Defined.

Lemma add_url_run owner url kj :
  url ≠ "" →
  add_url owner url kj
  = (Return (url_bundle url kj),
     with_issuer_keys kj
       (<[owner := default [] (issuer_keys kj !! owner)
                   ++ [url_bundle url kj]]> (issuer_keys kj))).
Proof.
  intros Hurl. unfold add_url, PyStr.truthy.
  rewrite bool_decide_eq_false_2 by done. cbn [negb].
  rewrite bind_run. cbn [self]. rewrite bind_run.
  replace (if PyStr.contains "/localhost:" url
              || PyStr.contains "/localhost/" url
           then KeyBundle.of_source url false
           else KeyBundle.of_source url (verify_ssl kj))
    with (url_bundle url kj)
    by (unfold url_bundle; by destruct (_ || _)).
  change (try_except (append owner ?kc) KeyError (assign owner [?kc]))
    with (add_kb owner kc).
  by rewrite add_kb_run.
Qed.

Lemma find_run source issuer kj :
  find source issuer kj
  = (Return (issuer_keys kj !! issuer ≫= first_with_source source), kj).
Proof.
  unfold find, try_except. rewrite bind_run. unfold getitem.
  by destruct (issuer_keys kj !! issuer).
Qed.

Lemma first_with_source_Some source kbl kb :
  first_with_source source kbl = Some kb →
  kb ∈ kbl ∧ KeyBundle.source kb = source.
Proof.
  induction kbl as [|kb' kbl IH]; [done|]. cbn [first_with_source].
  case_bool_decide as Hs.
  - intros [= <-]. split; [apply list_elem_of_here|done].
  - intros [? ?]%IH. split; [by apply list_elem_of_further|done].
Qed.

Lemma first_with_source_None source kbl :
  first_with_source source kbl = None
  ↔ ∀ kb, kb ∈ kbl → KeyBundle.source kb ≠ source.
Proof.
  induction kbl as [|kb' kbl IH]; cbn [first_with_source].
  - split; [|done]. by intros _ kb ?%elem_of_nil.
  - case_bool_decide as Hs.
    + split; [done|]. intros Hall. destruct (Hall kb'); [|done].
      apply list_elem_of_here.
    + rewrite IH. split.
      * intros Hall kb [->|?]%elem_of_cons; [done|by apply Hall].
      * intros Hall kb Hin. apply Hall. by apply list_elem_of_further.
Qed.

(** X7: [find] never raises and never changes the store.  A bundle it
    returns belongs to the issuer and has the source asked for; it returns
    [None] exactly when the issuer is unknown or none of its bundles has
    that source. *)
Theorem find_spec source issuer kj :
  store_after (find source issuer) kj = kj
  ∧ ∃ found,
      result (find source issuer) kj = Return found
      ∧ (∀ kb, found = Some kb →
               KeyBundle.source kb = source
               ∧ ∃ kbl, issuer_keys kj !! issuer = Some kbl ∧ kb ∈ kbl)
      ∧ (found = None
         ↔ ∀ kbl kb, issuer_keys kj !! issuer = Some kbl → kb ∈ kbl →
                     KeyBundle.source kb ≠ source).
Proof.
  unfold store_after, result. rewrite find_run. split; [done|].
  eexists. split; [done|]. cbn [fst].
  destruct (issuer_keys kj !! issuer) as [kbl|]; cbn.
  - split.
    + intros kb [? ?]%first_with_source_Some. eauto.
    + rewrite first_with_source_None. split.
      * intros Hall kbl' kb [= <-]. apply Hall.
      * intros Hall kb. by apply Hall.
  - split; [done|]. split; [done|]. done.
Qed.



(** *** Replacing, importing and loading *)

Lemma bundles_of_fmap kbl : bundles_of (PyKeyBundle <$> kbl) = kbl.
Proof.
  unfold bundles_of. induction kbl as [|kb kbl IH]; [done|].
  cbn. by rewrite IH.
Qed.

Lemma all_bundles_fmap (val : list pyval) :
  (∀ v, v ∈ val → is_bundle v = true) →
  PyKeyBundle <$> bundles_of val = val.
Proof.
  unfold bundles_of. induction val as [|v val IH]; intros Hall; [done|].
  assert (is_bundle v = true) as Hv by (apply Hall, list_elem_of_here).
  destruct v; try done. cbn. f_equal.
  apply IH. intros w Hw. apply Hall. by apply list_elem_of_further.
Qed.

Lemma setitem_run owner val kj :
  (∀ v, v ∈ as_list val → is_bundle v = true) →
  __setitem__ owner val kj
  = (Return tt,
     with_issuer_keys kj
       (<[owner := bundles_of (as_list val)]> (issuer_keys kj))).
Proof.
  intros Hall. unfold __setitem__. cbv zeta.
  rewrite bind_run, check_bundles_run.
  destruct (list_find _ _) as [[i v]|] eqn:Hfind; [|done].
  apply list_find_Some in Hfind as (Hi & Hv & _).
  apply list_elem_of_lookup_2, Hall in Hi. congruence.
Qed.

(** X9: when the value is a bundle or a list of bundles, [__setitem__]
    returns, binds the owner to exactly these bundles in their order,
    whatever the owner was bound to before, and leaves the other owners as
    they were. *)
Theorem setitem_replaces owner val kj :
  (∀ v, v ∈ as_list val → is_bundle v = true) →
  result (__setitem__ owner val) kj = Return tt
  ∧ (∃ kbl, issuer_keys (store_after (__setitem__ owner val) kj) !! owner
            = Some kbl
            ∧ PyKeyBundle <$> kbl = as_list val)
  ∧ ∀ other, other ≠ owner →
      issuer_keys (store_after (__setitem__ owner val) kj) !! other
      = issuer_keys kj !! other.
Proof.
  intros Hall. unfold result, store_after. rewrite setitem_run by done.
  cbn [fst snd issuer_keys with_issuer_keys]. split; [done|]. split.
  - eexists. split; [apply lookup_insert_eq|]. by apply all_bundles_fmap.
  - intros other Hne. by rewrite lookup_insert_ne by congruence.
Qed.

Lemma setitem_replaces_witness :
  result (__setitem__ "https://rp/"
            (PyKeyBundle (KeyBundle.of_keys [Sample.rsa_current] true)))
    Sample.one_client = Return tt
  ∧ (∃ kbl,
       issuer_keys
         (store_after
            (__setitem__ "https://rp/"
               (PyKeyBundle (KeyBundle.of_keys [Sample.rsa_current] true)))
            Sample.one_client) !! "https://rp/" = Some kbl
       ∧ PyKeyBundle <$> kbl
         = as_list
             (PyKeyBundle (KeyBundle.of_keys [Sample.rsa_current] true)))
  ∧ ∀ other, other ≠ "https://rp/" →
      issuer_keys
        (store_after
           (__setitem__ "https://rp/"
              (PyKeyBundle (KeyBundle.of_keys [Sample.rsa_current] true)))
           Sample.one_client) !! other
      = issuer_keys Sample.one_client !! other.
Proof.
  apply (setitem_replaces "https://rp/"
           (PyKeyBundle (KeyBundle.of_keys [Sample.rsa_current] true))
           Sample.one_client).
  intros v Hv. cbn in Hv. apply list_elem_of_singleton in Hv. by subst v.
Defined.

Lemma keys_of_insert kj owner kbl :
  keys_of (with_issuer_keys kj (<[owner := kbl]> (issuer_keys kj))) owner
  = flat_map KeyBundle.keys kbl.
Proof. unfold keys_of. cbn. by rewrite lookup_insert_eq. Qed.


Lemma add_url_empty_run owner kj :
  add_url owner "" kj = (Raise (Exn KeyError (Text "No jwks_uri")), kj).
Proof. reflexivity. Qed.



(** *** Copies and comparison *)

Lemma bundle_copy_id kb : KeyBundle.copy kb = kb.
Proof. by destruct kb. Qed.

Lemma bundle_copy_fmap (kbl : list KeyBundle.t) :
  KeyBundle.copy <$> kbl = kbl.
Proof.
  induction kbl as [|kb kbl IH]; [done|].
  cbn. by rewrite bundle_copy_id, IH.
Qed.

Lemma is_bundle_fmap (kbl : list KeyBundle.t) v :
  v ∈ PyKeyBundle <$> kbl → is_bundle v = true.
Proof. by intros (kb & -> & _)%list_elem_of_fmap. Qed.

(** The loop of [copy]: every owner visited is bound, in the new store, to
    the copies of its bundles. *)
Lemma copy_loop self_ isss :
  ∀ kj,
    (∀ owner, owner ∈ isss → is_Some (issuer_keys self_ !! owner)) →
    ∃ m,
      for_each isss
        (λ owner,
           match result (__getitem__ owner) self_ with
           | Return kbl =>
               __setitem__ owner
                 (PyList (PyKeyBundle <$> (KeyBundle.copy <$> kbl)))
           | Raise e => raise e
           end) kj
      = (Return tt, with_issuer_keys kj m)
      ∧ ∀ i, m !! i = if decide (i ∈ isss) then issuer_keys self_ !! i
                      else issuer_keys kj !! i.
Proof.
  induction isss as [|owner isss IH]; intros kj Hall.
  - exists (issuer_keys kj). split.
    + cbn. unfold ret. by rewrite with_issuer_keys_id.
    + intros i. rewrite decide_False; [done|]. apply not_elem_of_nil.
  - destruct (Hall owner) as [kbl Hkbl]; [apply list_elem_of_here|].
    cbn [for_each]. rewrite bind_run.
    unfold result at 1, __getitem__ at 1, getitem at 1. rewrite Hkbl.
    cbn [fst]. rewrite setitem_run by (cbn; apply is_bundle_fmap).
    cbn [as_list]. rewrite bundles_of_fmap, bundle_copy_fmap.
    set (kj1 := with_issuer_keys kj (<[owner := kbl]> (issuer_keys kj))).
    destruct (IH kj1) as (m & Hrun & Hm).
    { intros o Ho. apply Hall. by apply list_elem_of_further. }
    exists m. split; [by rewrite Hrun|].
    intros i. rewrite Hm. unfold kj1. cbn.
    destruct (decide (i ∈ isss)) as [Hin|Hnin].
    + by rewrite decide_True by (by apply list_elem_of_further).
    + destruct (decide (i = owner)) as [->|Hne].
      * rewrite decide_True by apply list_elem_of_here.
        by rewrite lookup_insert_eq.
      * rewrite decide_False by (by intros [?|?]%elem_of_cons).
        by rewrite lookup_insert_ne by congruence.
Qed.

Lemma copy_run self_ :
  copy self_ = Return (with_issuer_keys new (issuer_keys self_)).
Proof.
  unfold copy.
  destruct (copy_loop self_ (owner_list self_) new) as (m & -> & Hm).
  - intros owner Ho%elem_of_owner_list. by apply elem_of_dom.
  - f_equal. f_equal. apply map_eq. intros i. rewrite Hm.
    case_decide as Hin; [done|].
    rewrite elem_of_owner_list in Hin. apply not_elem_of_dom in Hin.
    by rewrite Hin.
Qed.

(** X12: [copy] never raises.  The copy binds the same owners to copies of
    the same bundles, in the same order; its settings are those of a fresh
    [KeyJar()] (no CA certificates, TLS verification on, a retention window
    of 3600 seconds), whatever the settings of the original. *)
Theorem copy_spec self_ :
  ∃ kj, copy self_ = Return kj
        ∧ issuer_keys kj = issuer_keys self_
        ∧ ca_certs kj = None
        ∧ verify_ssl kj = true
        ∧ remove_after kj = 3600%Z.
Proof. eexists. split; [apply copy_run|]. done. Qed.

Lemma weakly_equal_sym a b : weakly_equal a b → weakly_equal b a.
Proof.
  intros [Hdom Hall]. split; [done|]. intros iss Hiss.
  rewrite <-Hdom in Hiss. destruct (Hall iss Hiss) as [Hlen (key & ? & ?)].
  split; [done|]. by exists key.
Qed.

(** X13: comparison is symmetric: comparing [a] with [b] gives what
    comparing [b] with [a] gives. *)
Theorem eq_symmetric a b : __eq__ a (AKeyJar b) = __eq__ b (AKeyJar a).
Proof.
  assert (∀ a b, __eq__ a (AKeyJar b) = Return true →
                 __eq__ b (AKeyJar a) = Return true) as Hsym.
  { intros a' b'. rewrite !eq_true_iff. apply weakly_equal_sym. }
  pose proof (Hsym a b) as Hab. pose proof (Hsym b a) as Hba.
  rewrite !eq_run in *.
  destruct (_ && _), (_ && _); try done.
  - by specialize (Hab eq_refl).
  - by specialize (Hba eq_refl).
Qed.

Lemma forallb_pointwise {A} (f g : A → bool) l :
  (∀ x, f x = g x) → forallb f l = forallb g l.
Proof.
  intros Hfg. induction l as [|x l IH]; [done|].
  cbn. by rewrite Hfg, IH.
Qed.

Lemma eq_same_bundles a b c :
  issuer_keys b = issuer_keys c →
  __eq__ a (AKeyJar b) = __eq__ a (AKeyJar c).
Proof.
  intros Hbc. rewrite !eq_run. rewrite Hbc. do 2 f_equal.
  apply forallb_pointwise. intros iss. unfold issuer_agrees, keys_of.
  by rewrite Hbc.
Qed.

(** X14: a store compares equal to itself, and to its own copy, exactly
    when every one of its owners holds at least one key; an owner whose
    bundles are all empty makes the store unequal to itself. *)
Theorem eq_self_and_copy a :
  (__eq__ a (AKeyJar a) = Return true
   ↔ ∀ iss, iss ∈ dom (issuer_keys a) → keys_of a iss ≠ [])
  ∧ ∀ c, copy a = Return c →
         __eq__ a (AKeyJar c) = __eq__ a (AKeyJar a).
Proof.
  split.
  - rewrite eq_true_iff. unfold weakly_equal. split.
    + intros [_ Hall] iss Hiss Hnil.
      destruct (Hall iss Hiss) as [_ (key & Hkey & _)].
      rewrite Hnil in Hkey. by apply elem_of_nil in Hkey.
    + intros Hall. split; [done|]. intros iss Hiss. split; [done|].
      specialize (Hall iss Hiss).
      destruct (keys_of a iss) as [|key l]; [done|].
      exists key. split; apply list_elem_of_here.
  - intros c Hc. rewrite copy_run in Hc. injection Hc as <-.
    by apply eq_same_bundles.
Qed.

(** *** What a purge keeps *)

Lemma flat_map_keys_purge_bundles after when kbl :
  flat_map KeyBundle.keys (purge_bundles after when kbl)
  = filter (λ key, KeyBundle.outdated after when key = false)
      (flat_map KeyBundle.keys kbl).
Proof.
  unfold purge_bundles. induction kbl as [|kb kbl IH]; [done|].
  cbn [map flat_map]. rewrite filter_app, filter_cons, <-IH.
  case_decide as Hlen; [done|].
  unfold KeyBundle.len in Hlen.
  apply nil_length_inv in Hlen. cbn in Hlen.
  unfold KeyBundle.keys at 2. by rewrite Hlen.
Qed.

Lemma purge_bundles_nonempty_keys after when kbl :
  purge_bundles after when kbl ≠ [] →
  flat_map KeyBundle.keys (purge_bundles after when kbl) ≠ [].
Proof.
  unfold purge_bundles. intros Hne.
  destruct (filter _ _) as [|kb l] eqn:Hf; [done|].
  assert (kb ∈ filter (λ kb, KeyBundle.len kb ≠ 0%nat)
                 (map (KeyBundle.remove_outdated after when) kbl)) as Hin
    by (rewrite Hf; apply list_elem_of_here).
  apply list_elem_of_filter in Hin as [Hlen _].
  cbn [flat_map]. unfold KeyBundle.len in Hlen.
  unfold KeyBundle.keys at 1. destruct (KeyBundle._keys kb); done.
Qed.

Lemma keys_after_remove_outdated when kj iss :
  keys_of (store_after (remove_outdated when) kj) iss
  = filter (λ key, KeyBundle.outdated (remove_after kj) when key = false)
      (keys_of kj iss)
  ∧ (is_Some (issuer_keys (store_after (remove_outdated when) kj) !! iss)
     ↔ ∃ key, key ∈ keys_of kj iss
              ∧ KeyBundle.outdated (remove_after kj) when key = false).
Proof.
  unfold store_after. rewrite remove_outdated_run. cbn [snd].
  unfold keys_of. cbn [issuer_keys with_issuer_keys]. rewrite lookup_omap.
  destruct (issuer_keys kj !! iss) as [kbl|]; cbn [mbind option_bind default
                                                   from_option id].
  - pose proof (flat_map_keys_purge_bundles (remove_after kj) when kbl)
      as Hkeys.
    unfold purged_entry. case_bool_decide as Hne.
    + cbn [default from_option id]. split; [done|]. split; [intros _|eauto].
      apply purge_bundles_nonempty_keys in Hne. rewrite Hkeys in Hne.
      destruct (filter _ _) as [|key l] eqn:Hf; [done|].
      assert (key ∈ filter
                      (λ key, KeyBundle.outdated (remove_after kj) when key
                              = false)
                      (flat_map KeyBundle.keys kbl)) as Hin
        by (rewrite Hf; apply list_elem_of_here).
      apply list_elem_of_filter in Hin as [? ?]. by exists key.
    + rewrite Hne in Hkeys. cbn [flat_map] in Hkeys.
      cbn [default from_option id flat_map]. split; [done|].
      split; [by intros [? ?]|].
      intros (key & Hin & Hkey).
      assert (key ∈ filter
                      (λ key, KeyBundle.outdated (remove_after kj) when key
                              = false)
                      (flat_map KeyBundle.keys kbl)) as Hf
        by (by apply list_elem_of_filter).
      rewrite <-Hkeys in Hf. by apply elem_of_nil in Hf.
  - cbn. split; [done|]. split; [by intros [? ?]|].
    by intros (key & ?%elem_of_nil & _).
Qed.

(** X15: a purge drops exactly the keys that are inactive and whose
    retention window has elapsed at [when]: for every owner the keys left
    are the others, in their order.  An owner stays in the store exactly
    when one of its keys is left. *)
Theorem remove_outdated_keys when kj iss :
  keys_of (store_after (remove_outdated when) kj) iss
  = filter (λ key, KeyBundle.outdated (remove_after kj) when key = false)
      (keys_of kj iss)
  ∧ (is_Some (issuer_keys (store_after (remove_outdated when) kj) !! iss)
     ↔ ∃ key, key ∈ keys_of kj iss
              ∧ KeyBundle.outdated (remove_after kj) when key = false).
Proof. apply keys_after_remove_outdated. Qed.

(** *** Export *)

Section export_laws.

Context {J : Type}.
Variable serialize : bool → Key.t → J.

Lemma export_jwks_run private issuer kj :
  export_jwks serialize private issuer kj
  = (match issuer_keys kj !! issuer with
     | Some _ =>
         Return (serialize private
                   <$> filter (λ k, Key.inactive_since k = 0%Z)
                         (keys_of kj issuer))
     | None => Raise (Exn KeyError (Text issuer))
     end, kj).
Proof.
  unfold export_jwks. rewrite bind_run. unfold getitem, keys_of.
  destruct (issuer_keys kj !! issuer) as [kbl|]; [|done].
  cbn [default from_option id]. unfold ret. do 2 f_equal.
  induction kbl as [|kb kbl IH]; [done|].
  cbn [flat_map]. by rewrite filter_app, fmap_app, IH.
Qed.

(** X16: [export_jwks] leaves the store as it was.  For an issuer the
    store knows it returns the serialisation of the issuer's active keys,
    one entry for each key whose [inactive_since] is 0, in bundle order;
    for an issuer the store does not know, the default [""] included, it
    raises [KeyError]. *)
Theorem export_jwks_active_only private issuer kj :
  store_after (export_jwks serialize private issuer) kj = kj
  ∧ match issuer_keys kj !! issuer with
    | Some _ =>
        result (export_jwks serialize private issuer) kj
        = Return (serialize private
                    <$> filter (λ k, Key.inactive_since k = 0%Z)
                          (keys_of kj issuer))
    | None =>
        result (export_jwks serialize private issuer) kj
        = Raise (Exn KeyError (Text issuer))
    end.
Proof.
  unfold store_after, result. rewrite export_jwks_run. split; [done|].
  by destruct (issuer_keys kj !! issuer).
Qed.

Lemma active_not_outdated after when key :
  Key.inactive_since key = 0%Z → KeyBundle.outdated after when key = false.
Proof.
  intros H0. unfold KeyBundle.outdated, Key.inactive. by rewrite H0.
Qed.

(** X17: a purge does not change what [export_jwks] returns for an issuer
    that is still in the store afterwards.  An issuer the purge drops had
    nothing to export before, and exporting it raises [KeyError]
    afterwards. *)
Theorem export_jwks_after_remove_outdated private issuer when kj :
  is_Some (issuer_keys kj !! issuer) →
  result (export_jwks serialize private issuer)
    (store_after (remove_outdated when) kj)
  = result (export_jwks serialize private issuer) kj
  ∨ (issuer_keys (store_after (remove_outdated when) kj) !! issuer = None
     ∧ result (export_jwks serialize private issuer) kj = Return []
     ∧ result (export_jwks serialize private issuer)
         (store_after (remove_outdated when) kj)
       = Raise (Exn KeyError (Text issuer))).
Proof.
  intros [kbl Hkbl]. unfold result. rewrite !export_jwks_run. cbn [fst].
  rewrite Hkbl.
  destruct (keys_after_remove_outdated when kj issuer) as [Hkeys Hdom].
  assert (filter (λ k, Key.inactive_since k = 0%Z)
            (filter (λ key, KeyBundle.outdated (remove_after kj) when key
                            = false) (keys_of kj issuer))
          = filter (λ k, Key.inactive_since k = 0%Z) (keys_of kj issuer))
    as Hactive.
  { rewrite list_filter_filter. apply list_filter_iff. intros key.
    split; [tauto|]. intros H0. split; [done|].
    by apply active_not_outdated. }
  destruct (issuer_keys (store_after (remove_outdated when) kj) !! issuer)
    as [kbl'|] eqn:Hafter.
  - left. by rewrite Hkeys, Hactive.
  - right. split; [done|]. split; [|done].
    rewrite <-Hactive, <-Hkeys. unfold keys_of. by rewrite Hafter.
Qed.

End export_laws.

Lemma export_jwks_after_remove_outdated_witness :
  result (export_jwks (λ _ key, Key.kid key) false "")
    (store_after (remove_outdated 6000) Sample.rotated)
  = result (export_jwks (λ _ key, Key.kid key) false "") Sample.rotated
  ∨ (issuer_keys (store_after (remove_outdated 6000) Sample.rotated) !! ""
     = None
     ∧ result (export_jwks (λ _ key, Key.kid key) false "") Sample.rotated
       = Return []
     ∧ result (export_jwks (λ _ key, Key.kid key) false "")
         (store_after (remove_outdated 6000) Sample.rotated)
       = Raise (Exn KeyError (Text ""))).
Proof.
  apply (export_jwks_after_remove_outdated (λ _ key, Key.kid key) false ""
           6000 Sample.rotated).
  eexists. reflexivity.
Defined.


(** *** match_owner *)

Lemma match_owner_loop_Return order url owner :
  match_owner_loop order url = Return owner →
  owner ∈ order ∧ String.prefix owner url = true.
Proof.
  induction order as [|o order IH]; [done|]. cbn [match_owner_loop].
  destruct (String.prefix o url) eqn:Ho.
  - intros [= <-]. split; [apply list_elem_of_here|done].
  - intros [? ?]%IH. split; [by apply list_elem_of_further|done].
Qed.

Lemma match_owner_loop_Raise order url e :
  match_owner_loop order url = Raise e →
  e = Exn KeyIOError (Format "No keys for '%s'" (PyString url))
  ∧ ∀ owner, owner ∈ order → String.prefix owner url = false.
Proof.
  induction order as [|o order IH]; cbn [match_owner_loop].
  - intros [= <-]. split; [done|]. by intros owner ?%elem_of_nil.
  - destruct (String.prefix o url) eqn:Ho; [done|].
    intros [He Hall]%IH. split; [done|].
    by intros owner [->|?]%elem_of_cons; [|apply Hall].
Qed.

(** X19: whatever the order in which the owners are visited,
    [match_owner] leaves the store alone; an owner it returns is an owner
    of the store and a prefix of the url; it raises, and then a
    [KeyIOError], exactly when no owner of the store is a prefix of the
    url.  In particular it never raises on a store that has an entry for
    [""]. *)
Theorem match_owner_spec order url kj :
  order ≡ₚ owner_list kj →
  store_after (match_owner order url) kj = kj
  ∧ (∀ owner, result (match_owner order url) kj = Return owner →
              is_Some (issuer_keys kj !! owner)
              ∧ String.prefix owner url = true)
  ∧ (∀ e, result (match_owner order url) kj = Raise e →
          e = Exn KeyIOError (Format "No keys for '%s'" (PyString url))
          ∧ ∀ owner, is_Some (issuer_keys kj !! owner) →
                     String.prefix owner url = false)
  ∧ (is_Some (issuer_keys kj !! "") →
     ∃ owner, result (match_owner order url) kj = Return owner).
Proof.
  intros Hperm.
  assert (∀ owner, owner ∈ order ↔ is_Some (issuer_keys kj !! owner))
    as Hin.
  { intros owner. rewrite Hperm, elem_of_owner_list. apply elem_of_dom. }
  unfold store_after, result, match_owner. cbn [fst snd].
  split; [done|]. split; [|split].
  - intros owner [? ?]%match_owner_loop_Return. split; [by apply Hin|done].
  - intros e [? Hall]%match_owner_loop_Raise. split; [done|].
    intros owner Ho. by apply Hall, Hin.
  - intros Hown. destruct (match_owner_loop order url) as [owner|e] eqn:Hm;
      [by exists owner|].
    apply match_owner_loop_Raise in Hm as [_ Hall].
    specialize (Hall "" (proj2 (Hin "") Hown)). by destruct url.
Qed.

Lemma match_owner_spec_witness :
  store_after (match_owner ["https://rp/"] "https://rp/cb") Sample.one_client
  = Sample.one_client
  ∧ (∀ owner,
       result (match_owner ["https://rp/"] "https://rp/cb") Sample.one_client
       = Return owner →
       is_Some (issuer_keys Sample.one_client !! owner)
       ∧ String.prefix owner "https://rp/cb" = true)
  ∧ (∀ e,
       result (match_owner ["https://rp/"] "https://rp/cb") Sample.one_client
       = Raise e →
       e = Exn KeyIOError
             (Format "No keys for '%s'" (PyString "https://rp/cb"))
       ∧ ∀ owner, is_Some (issuer_keys Sample.one_client !! owner) →
                  String.prefix owner "https://rp/cb" = false)
  ∧ (is_Some (issuer_keys Sample.one_client !! "") →
     ∃ owner,
       result (match_owner ["https://rp/"] "https://rp/cb") Sample.one_client
       = Return owner).
Proof.
  apply (match_owner_spec ["https://rp/"] "https://rp/cb" Sample.one_client).
  reflexivity.
Defined.

(** *** Resolving keys for a token *)

Lemma get_outcome_Raise key_use key_type owner kid alg kj e :
  get_outcome key_use key_type owner kid alg kj = Raise e →
  e = Exn KeyError (Text "")
  ∧ merges_own_keys key_use key_type owner
  ∧ issuer_keys kj !! "" = None.
Proof.
  unfold get_outcome, merges_own_keys.
  destruct (resolve_owner owner kj) as [_kj|]; [|done]. cbv zeta.
  destruct (bool_decide (use_class key_use = "enc")) eqn:H1;
    [apply bool_decide_eq_true in H1|done].
  destruct (bool_decide (key_type = "oct")) eqn:H2;
    [apply bool_decide_eq_true in H2|done].
  destruct (bool_decide (owner ≠ "")) eqn:H3;
    [apply bool_decide_eq_true in H3|done].
  cbn [andb]. destruct (issuer_keys kj !! ""); [done|].
  by intros [= <-].
Qed.

Lemma no_kid_branch (keys : list Key.t) (owner : string)
    (nki : option (gmap string (option (list string)))) (allow : bool)
    (kl : list Key.t) :
  (if bool_decide (length kl = 0%nat) then (ret keys : M (list Key.t))
   else if bool_decide (length kl = 1%nat) then
     match kl with
     | kl0 :: _ =>
         if bool_decide (kl0 ∈ keys) then ret keys else ret (keys ++ [kl0])
     | [] => ret keys
     end
   else if allow then ret (keys ++ kl)
   else if nki_given nki then
     match default ∅ nki !! owner with
     | None => ret keys
     | Some allowed_kids =>
         if kids_given allowed_kids then
           ret (keys ++
                filter (λ k, Key.kid k ∈ default [] allowed_kids) kl)
         else ret (keys ++ kl)
     end
   else ret keys)
  = ret (keys ++ no_kid_addition keys owner nki allow kl).
Proof.
  destruct kl as [|kl0 [|kl1 kl]]; cbn [length no_kid_addition].
  - by rewrite bool_decide_eq_true_2, app_nil_r.
  - rewrite bool_decide_eq_false_2, bool_decide_eq_true_2 by done.
    case_bool_decide; by rewrite ?app_nil_r.
  - rewrite !bool_decide_eq_false_2 by done.
    unfold accepted. destruct allow; [done|].
    destruct nki as [d|]; cbn [nki_given mbind option_bind default];
      [|by rewrite app_nil_r].
    change (id d) with d. case_bool_decide as Hd; cbn [negb].
    { subst d. rewrite lookup_empty. by rewrite app_nil_r. }
    destruct (d !! owner) as [[[|kid0 allowed]|]|];
      cbn [kids_given default]; by rewrite ?app_nil_r.
Qed.

Lemma add_key_run keys owner use key_type kid nki allow kj :
  _add_key keys owner use key_type kid nki allow kj
  = (add_key_outcome keys owner use key_type kid nki allow kj, kj).
Proof.
  unfold _add_key, add_key_outcome. rewrite bind_run, contains_run.
  destruct (issuer_keys kj !! owner) as [kbl|].
  2: { by rewrite bool_decide_eq_false_2 by (by intros [? ?]). }
  rewrite bool_decide_eq_true_2 by eauto. cbn [negb].
  destruct (PyStr.truthy kid).
  - rewrite bind_run, get_run.
    by destruct (get_outcome _ _ _ _ _ _).
  - rewrite bind_run. unfold try_except. rewrite bind_run, get_run.
    destruct (get_outcome _ _ _ _ _ _) as [kl|e] eqn:Hget.
    + unfold ret at 1. by rewrite no_kid_branch.
    + apply get_outcome_Raise in Hget as [-> _]. done.
Qed.

Lemma append_new_spec found :
  ∀ keys, ∃ added,
    append_new keys found = keys ++ added
    ∧ (∀ key, key ∈ added → key ∈ found ∧ key ∉ keys)
    ∧ (∀ key, key ∈ found → key ∈ keys ∨ key ∈ added)
    ∧ NoDup added.
Proof.
  induction found as [|k found IH]; intros keys; cbn [append_new].
  - exists []. rewrite app_nil_r. split; [done|].
    split; [by intros key ?%elem_of_nil|].
    split; [by intros key ?%elem_of_nil|]. constructor.
  - case_bool_decide as Hk.
    + destruct (IH keys) as (added & -> & Hadded & Hfound & Hnd).
      exists added. split; [done|]. split; [|split; [|done]].
      * intros key Hin. destruct (Hadded key Hin) as [? ?].
        split; [by apply list_elem_of_further|done].
      * intros key [->|?]%elem_of_cons; [by left|by apply Hfound].
    + destruct (IH (keys ++ [k])) as (added & -> & Hadded & Hfound & Hnd).
      exists (k :: added). rewrite <-app_assoc.
      split; [done|]. split; [|split].
      * intros key [->|Hin]%elem_of_cons.
        -- split; [apply list_elem_of_here|done].
        -- destruct (Hadded key Hin) as [? Hnot]. split.
           ++ by apply list_elem_of_further.
           ++ intros ?. apply Hnot. apply elem_of_app. by left.
      * intros key [->|Hin]%elem_of_cons.
        -- right. apply list_elem_of_here.
        -- destruct (Hfound key Hin) as [Hold|?].
           ++ apply elem_of_app in Hold as [?|Hk'].
              ** by left.
              ** apply list_elem_of_singleton in Hk' as ->.
                 right. apply list_elem_of_here.
           ++ right. by apply list_elem_of_further.
      * apply NoDup_cons. split; [|done].
        intros Hin. destruct (Hadded k Hin) as [_ Hnot].
        apply Hnot. apply elem_of_app. right. apply list_elem_of_here.
Qed.

Lemma accepted_subseteq owner nki allow kl key :
  key ∈ accepted owner nki allow kl → key ∈ kl.
Proof.
  unfold accepted. destruct allow; [done|].
  destruct (nki ≫= _) as [[[|kid0 allowed]|]|]; try done.
  - by intros [_ ?]%list_elem_of_filter.
  - by intros ?%elem_of_nil.
Qed.

Lemma no_kid_addition_subseteq keys owner nki allow kl key :
  key ∈ no_kid_addition keys owner nki allow kl → key ∈ kl.
Proof.
  destruct kl as [|kl0 [|kl1 kl]]; cbn [no_kid_addition].
  - done.
  - case_bool_decide; [by intros ?%elem_of_nil|done].
  - apply accepted_subseteq.
Qed.

(** X20: [_add_key] leaves the store alone and never takes a candidate
    away: the list it returns is the list it was given followed by added
    keys, each of which is a key the lookup for the owner returns (the
    lookup with the [kid], when one is given).  For an owner that is not in
    the store as spelled, no key is added, trailing slash or not. *)
Theorem add_key_extends keys owner use key_type kid nki allow kj :
  store_after (_add_key keys owner use key_type kid nki allow) kj = kj
  ∧ ∀ keys',
      result (_add_key keys owner use key_type kid nki allow) kj
      = Return keys' →
      ∃ added,
        keys' = keys ++ added
        ∧ (issuer_keys kj !! owner = None → added = [])
        ∧ ∀ key, key ∈ added →
            ∃ lst,
              result (get use key_type owner
                        (if PyStr.truthy kid then Some kid else None) None)
                kj = Return lst
              ∧ key ∈ lst.
Proof.
  unfold store_after, result. rewrite add_key_run. split; [done|].
  cbn [fst]. intros keys'. unfold add_key_outcome.
  pose proof (get_result use key_type owner) as Hres. unfold result in Hres.
  destruct (issuer_keys kj !! owner) as [kbl|].
  2: { intros [= <-]. exists []. rewrite app_nil_r. split; [done|].
       split; [done|]. by intros key ?%elem_of_nil. }
  destruct (PyStr.truthy kid).
  - destruct (get_outcome _ _ _ (Some kid) _ _) as [found|e] eqn:Hget; [|done].
    intros [= <-].
    destruct (append_new_spec found keys) as (added & -> & Hadded & _).
    exists added. split; [done|]. split; [done|].
    intros key Hkey. exists found. rewrite Hres. split; [done|].
    by apply Hadded.
  - destruct (get_outcome _ _ _ None _ _) as [kl|e] eqn:Hget.
    + intros [= <-]. eexists. split; [done|]. split; [done|].
      intros key Hkey%no_kid_addition_subseteq. exists kl.
      by rewrite Hres.
    + intros [= <-]. exists []. rewrite app_nil_r. split; [done|].
      split; [done|]. by intros key ?%elem_of_nil.
Qed.

(** X21: [_add_key] raises in one situation only: a [kid] is given, the
    owner is in the store, and the lookup for that [kid] raises, which is
    the encryption lookup of type ["oct"] for a non-empty owner on a store
    without an entry for [""].  Without a [kid] it never raises. *)
Theorem add_key_raises_only keys owner use key_type kid nki allow kj e :
  result (_add_key keys owner use key_type kid nki allow) kj = Raise e →
  kid ≠ ""
  ∧ e = Exn KeyError (Text "")
  ∧ is_Some (issuer_keys kj !! owner)
  ∧ merges_own_keys use key_type owner
  ∧ issuer_keys kj !! "" = None.
Proof.
  unfold result. rewrite add_key_run. cbn [fst]. unfold add_key_outcome.
  destruct (issuer_keys kj !! owner) as [kbl|]; [|done].
  destruct (PyStr.truthy kid) eqn:Hkid.
  - destruct (get_outcome _ _ _ (Some kid) _ _) as [found|e'] eqn:Hget;
      [done|].
    intros [= <-]. apply get_outcome_Raise in Hget as (-> & ? & ?).
    split; [by intros ->|]. eauto.
  - by destruct (get_outcome _ _ _ None _ _).
Qed.

Lemma add_key_raises_only_witness :
  "k1" ≠ ""
  ∧ Exn KeyError (Text "") = Exn KeyError (Text "")
  ∧ is_Some (issuer_keys Sample.one_client !! "https://rp/")
  ∧ merges_own_keys "enc" "oct" "https://rp/"
  ∧ issuer_keys Sample.one_client !! "" = None.
Proof.
  apply (add_key_raises_only [] "https://rp/" "enc" "oct" "k1" None false
           Sample.one_client).
  reflexivity.
Defined.

(** X22: with a [kid], for an owner in the store, [_add_key] returns the
    candidates followed by the keys of the lookup that are not candidates
    yet: the result holds exactly the candidates and the keys found, and
    has no key twice if the candidates had none twice. *)
Theorem add_key_with_kid keys owner use key_type kid nki allow kj found :
  kid ≠ "" →
  is_Some (issuer_keys kj !! owner) →
  result (get use key_type owner (Some kid) None) kj = Return found →
  ∃ keys',
    result (_add_key keys owner use key_type kid nki allow) kj = Return keys'
    ∧ keys `prefix_of` keys'
    ∧ (∀ key, key ∈ keys' ↔ key ∈ keys ∨ key ∈ found)
    ∧ (NoDup keys → NoDup keys').
Proof.
  intros Hkid [kbl Hkbl]. rewrite get_result. intros Hget.
  unfold result. rewrite add_key_run. cbn [fst]. unfold add_key_outcome.
  rewrite Hkbl. unfold PyStr.truthy.
  rewrite bool_decide_eq_false_2 by done. cbn [negb]. rewrite Hget.
  destruct (append_new_spec found keys) as (added & -> & Hadded & Hfound & Hnd).
  eexists. split; [done|]. split; [by exists added|]. split.
  - intros key. rewrite elem_of_app. split.
    + intros [?|?%Hadded]; [by left|right; tauto].
    + intros [?|?%Hfound]; [by left|done].
  - intros Hkeys. apply NoDup_app. split; [done|]. split; [|done].
    intros key Hin Hin'. by destruct (Hadded key Hin').
Qed.

Lemma add_key_with_kid_witness :
  ∃ keys',
    result (_add_key [Sample.rsa_current] "" "sig" "RSA" "rsa-old" None false)
      Sample.rotated = Return keys'
    ∧ [Sample.rsa_current] `prefix_of` keys'
    ∧ (∀ key, key ∈ keys'
              ↔ key ∈ [Sample.rsa_current] ∨ key ∈ [Sample.rsa_retired])
    ∧ (NoDup [Sample.rsa_current] → NoDup keys').
Proof.
  apply (add_key_with_kid [Sample.rsa_current] "" "sig" "RSA" "rsa-old" None
           false Sample.rotated [Sample.rsa_retired]).
  - done.
  - eexists. reflexivity.
  - reflexivity.
Defined.

(** X23: without a [kid], for an owner in the store whose lookup finds at
    most one key, [_add_key] does not look at the caller's flags: nothing
    is added for no key, and a single key is added unless it is a candidate
    already. *)
Theorem add_key_single_match keys owner use key_type nki allow kj kl :
  is_Some (issuer_keys kj !! owner) →
  result (get use key_type owner None None) kj = Return kl →
  (length kl ≤ 1)%nat →
  result (_add_key keys owner use key_type "" nki allow) kj
  = Return (match kl with
            | [kl0] => if bool_decide (kl0 ∈ keys) then keys
                       else keys ++ [kl0]
            | _ => keys
            end).
Proof.
  intros [kbl Hkbl]. rewrite get_result. intros Hget Hlen.
  unfold result. rewrite add_key_run. cbn [fst]. unfold add_key_outcome.
  rewrite Hkbl. change (PyStr.truthy "") with false. cbv iota.
  rewrite Hget. f_equal.
  destruct kl as [|kl0 [|kl1 kl]]; cbn [no_kid_addition].
  - apply app_nil_r.
  - case_bool_decide; [apply app_nil_r|done].
  - cbn in Hlen. lia.
Qed.

Lemma add_key_single_match_witness :
  result (_add_key [] "https://rp/" "sig" "" "" None false) Sample.one_client
  = Return (match [Sample.shared_secret] with
            | [kl0] => if bool_decide (kl0 ∈ []) then []
                       else [] ++ [kl0]
            | _ => []
            end).
Proof.
  apply (add_key_single_match [] "https://rp/" "sig" "" None false
           Sample.one_client [Sample.shared_secret]).
  - eexists. reflexivity.
  - reflexivity.
  - cbn. lia.
Defined.

(** *** Keys for a token *)

Lemma truthy_false s : PyStr.truthy s = false ↔ s = "".
Proof.
  unfold PyStr.truthy. rewrite negb_false_iff. apply bool_decide_eq_true.
Qed.

Lemma truthy_true s : PyStr.truthy s = true ↔ s ≠ "".
Proof.
  unfold PyStr.truthy. rewrite negb_true_iff. apply bool_decide_eq_false.
Qed.

Lemma scan_keys_kid_subseteq key_use use kid _bkeys key :
  key ∈ scan_keys key_use use kid _bkeys →
  key ∈ scan_keys key_use use None _bkeys.
Proof.
  induction _bkeys as [|key' rest IH]; [done|]. cbn [scan_keys kid_given].
  destruct (_ && _); [done|]. destruct (_ || _); [|done].
  destruct (kid_given kid).
  - case_bool_decide.
    + intros ->%list_elem_of_singleton. apply list_elem_of_here.
    + intros ?. by apply list_elem_of_further, IH.
  - intros [->|?]%elem_of_cons; [apply list_elem_of_here|].
    by apply list_elem_of_further, IH.
Qed.

Lemma picked_kid_subseteq key_use key_type kid kbl key :
  key ∈ picked key_use key_type kid None kbl →
  key ∈ picked key_use key_type None None kbl.
Proof.
  unfold picked, ec_filter, select_keys. rewrite !elem_of_flat_map.
  intros (bundle & ? & ?). exists bundle. split; [done|].
  by eapply scan_keys_kid_subseteq.
Qed.

Lemma append_new_absorb keys found :
  (∀ key, key ∈ found → key ∈ keys) → append_new keys found = keys.
Proof.
  induction found as [|key found IH]; intros Hall; [done|].
  cbn [append_new].
  rewrite bool_decide_eq_true_2 by (apply Hall, list_elem_of_here).
  apply IH. intros k Hk. by apply Hall, list_elem_of_further.
Qed.

Lemma own_keys_plain use key_type : ¬ merges_own_keys use key_type "".
Proof. by intros (_ & _ & ?). Qed.

Lemma filter_priv_twice (kl : list Key.t) :
  filter (λ k, Key.priv k = true) (kl ++ kl)
  = filter (λ k, Key.priv k = true) kl
    ++ filter (λ k, Key.priv k = true) kl.
Proof. apply filter_app. Qed.

(** X24: [get_jwt_decrypt_keys] never raises and leaves the store alone.
    It returns the private keys among the keys [kl] that the encryption
    lookup finds under my own identity [""] for the key type of the
    token's algorithm, whatever issuer the token names.  When the token
    has no [kid] and [kl] has more than one key, every key of [kl] is
    taken twice. *)
Theorem get_jwt_decrypt_keys_spec jwe_alg2keytype jwt kj :
  ∃ kl,
    result (get "enc"
              (match headers jwt !! "alg" with
               | Some alg => jwe_alg2keytype alg
               | None => ""
               end) "" None None) kj = Return kl
    ∧ result (get_jwt_decrypt_keys jwe_alg2keytype jwt) kj
      = Return (filter (λ k, Key.priv k = true)
                  (if bool_decide (default "" (headers jwt !! "kid") = "")
                      && bool_decide (1 < length kl)%nat
                   then kl ++ kl else kl))
    ∧ store_after (get_jwt_decrypt_keys jwe_alg2keytype jwt) kj = kj.
Proof.
  set (kt := match headers jwt !! "alg" with
             | Some alg => jwe_alg2keytype alg
             | None => ""
             end).
  set (kid := default "" (headers jwt !! "kid")).
  exists (picked "enc" kt None None (default [] (resolve_owner "" kj))).
  rewrite get_result, get_outcome_plain by apply own_keys_plain.
  split; [done|].
  unfold result, store_after, get_jwt_decrypt_keys. cbv zeta.
  fold kt kid.
  rewrite bind_run, get_run, get_outcome_plain by apply own_keys_plain.
  rewrite bind_run, add_key_run. unfold add_key_outcome.
  set (kl := picked "enc" kt None None (default [] (resolve_owner "" kj))).
  destruct (issuer_keys kj !! "") as [kbl|] eqn:Hown.
  - destruct (PyStr.truthy kid) eqn:Hkid.
    + rewrite get_outcome_plain by apply own_keys_plain.
      rewrite append_new_absorb by apply picked_kid_subseteq.
      apply truthy_true in Hkid.
      by rewrite (bool_decide_eq_false_2 (kid = "")).
    + rewrite get_outcome_plain by apply own_keys_plain. fold kl.
      apply truthy_false in Hkid.
      rewrite (bool_decide_eq_true_2 (kid = "")) by done. cbn [andb].
      destruct kl as [|kl0 [|kl1 kl']] eqn:Hkl; cbn [no_kid_addition length].
      * by rewrite bool_decide_eq_false_2 by lia.
      * rewrite bool_decide_eq_true_2 by apply list_elem_of_here.
        rewrite bool_decide_eq_false_2 by lia. by rewrite app_nil_r.
      * rewrite bool_decide_eq_true_2 by lia.
        unfold accepted. cbn [mbind option_bind].
        by rewrite lookup_singleton_eq.
  - assert (kl = []) as ->.
    { unfold kl, resolve_owner. rewrite Hown.
      rewrite bool_decide_eq_true_2 by done. apply picked_nil. }
    cbn [length]. rewrite (bool_decide_eq_false_2 (1 < 0)%nat) by lia.
    by rewrite andb_false_r.
Qed.

Lemma get_sig_run key_type owner kid kj :
  get "sig" key_type owner kid None kj
  = (Return (picked "sig" key_type kid None
               (default [] (resolve_owner owner kj))), kj).
Proof.
  rewrite get_run, get_outcome_plain; [done|]. by intros ([=] & _).
Qed.

Lemma add_key_sig_run keys owner key_type kid nki allow kj :
  ∃ added,
    _add_key keys owner "sig" key_type kid nki allow kj
    = (Return (keys ++ added), kj).
Proof.
  rewrite add_key_run. unfold add_key_outcome.
  assert (¬ merges_own_keys "sig" key_type owner) as Hplain
    by (by intros ([=] & _)).
  destruct (issuer_keys kj !! owner);
    [|exists []; by rewrite app_nil_r].
  rewrite !get_outcome_plain by done.
  destruct (PyStr.truthy kid).
  - match goal with
    | |- context [append_new keys ?found] =>
        destruct (append_new_spec found keys) as (added & -> & _)
    end.
    by exists added.
  - by eexists.
Qed.

Lemma add_key_for_each_sig_run _aud :
  ∀ keys key_type kid nki allow kj,
    ∃ added,
      add_key_for_each keys _aud "sig" key_type kid nki allow kj
      = (Return (keys ++ added), kj).
Proof.
  induction _aud as [|_e _aud IH]; intros keys key_type kid nki allow kj.
  - exists []. cbn. unfold ret. by rewrite app_nil_r.
  - cbn [add_key_for_each]. rewrite bind_run.
    destruct (add_key_sig_run keys _e key_type kid nki allow kj)
      as (added1 & ->).
    destruct (IH (keys ++ added1) key_type kid nki allow kj)
      as (added2 & ->).
    exists (added1 ++ added2). by rewrite app_assoc.
Qed.

Lemma add_keys_for_claims_run keys _payload key_type kid nki allow kj :
  ∃ added,
    add_keys_for_claims keys _payload key_type kid nki allow kj
    = (Return (keys ++ added), kj).
Proof.
  unfold add_keys_for_claims. rewrite bind_run.
  assert (∃ added1,
            match aud _payload with
            | None => ret keys
            | Some a =>
                add_key_for_each keys
                  match a with AudStr s => [s] | AudList l => l end
                  "sig" key_type kid nki allow
            end kj = (Return (keys ++ added1), kj)) as (added1 & ->).
  { destruct (aud _payload) as [a|].
    - apply add_key_for_each_sig_run.
    - exists []. unfold ret. by rewrite app_nil_r. }
  destruct (client_id _payload) as [c|].
  - destruct (add_key_sig_run (keys ++ added1) c key_type kid nki allow kj)
      as (added2 & ->).
    exists (added1 ++ added2). by rewrite app_assoc.
  - by exists added1.
Qed.

(** The trust extension either leaves the store alone or adds the [jku]
    url for the issuer; it does the latter exactly when the header is
    there and not empty, the issuer is not empty, no bundle with keys has
    that source for the issuer, and the caller passed a true [trusting]. *)
Lemma trust_extension_run bundle_true jwt kwargs _iss kj :
  (∃ jku,
     headers jwt !! "jku" = Some jku ∧ jku ≠ "" ∧ _iss ≠ ""
     ∧ kw_trusting kwargs = Some true
     ∧ nothing_found bundle_true
         (issuer_keys kj !! _iss ≫= first_with_source jku) = true
     ∧ trust_extension bundle_true jwt kwargs _iss kj
       = (Return tt, (add_url _iss jku kj).2))
  ∨ ((∀ jku, headers jwt !! "jku" = Some jku → jku ≠ "" → _iss ≠ "" →
             kw_trusting kwargs = Some true →
             nothing_found bundle_true
               (issuer_keys kj !! _iss ≫= first_with_source jku)
             = false)
     ∧ trust_extension bundle_true jwt kwargs _iss kj = (Return tt, kj)).
Proof.
  unfold trust_extension.
  destruct (headers jwt !! "jku") as [jku|]; [|by right].
  destruct (PyStr.truthy _iss) eqn:Hiss.
  2: { right. apply truthy_false in Hiss. split; [|done].
       by intros ? _ _ ?. }
  apply truthy_true in Hiss.
  rewrite bind_run, find_run.
  destruct (nothing_found _ _) eqn:Hfound.
  2: { right. split; [|done]. by intros ? [= <-]. }
  unfold try_except.
  destruct (kw_trusting kwargs) as [[|]|].
  - destruct (decide (jku = "")) as [->|Hjku].
    + right. split; [by intros ? [= <-]|].
      by rewrite bind_run, add_url_empty_run.
    + left. exists jku. repeat split; try done.
      by rewrite bind_run, add_url_run by done.
  - right. split; [|done]. by intros ? _ _ _ ?.
  - right. split; [|done]. by intros ? _ _ _ ?.
Qed.

(** X25: [get_jwt_verify_keys] never raises.  Every key it returns passes
    [is_public_key], and every such key among my own signature keys is
    returned.  The store is left as it was unless the token has a
    non-empty [jku] header, its issuer is not empty, [find] for that url
    and issuer gives nothing or a bundle that counts as false, and the
    caller passed a true [trusting]; then, and only then, the store is what
    [add_url] for the issuer and that url makes of it. *)
Theorem get_jwt_verify_keys_spec bundle_true jws_alg2keytype is_public_key
    jwt kwargs kj :
  (∃ lst,
     result (get_jwt_verify_keys bundle_true jws_alg2keytype is_public_key
               jwt kwargs) kj
     = Return lst
     ∧ (∀ key, key ∈ lst → is_public_key key = true)
     ∧ ∀ own key,
         result (get "sig"
                   (match headers jwt !! "alg" with
                    | Some alg => jws_alg2keytype alg
                    | None => ""
                    end) "" None None) kj = Return own →
         key ∈ own → is_public_key key = true → key ∈ lst)
  ∧ ((∃ jku found,
        headers jwt !! "jku" = Some jku ∧ jku ≠ ""
        ∧ token_issuer jwt kwargs ≠ ""
        ∧ kw_trusting kwargs = Some true
        ∧ result (find jku (token_issuer jwt kwargs)) kj = Return found
        ∧ nothing_found bundle_true found = true
        ∧ store_after
            (get_jwt_verify_keys bundle_true jws_alg2keytype is_public_key
               jwt kwargs) kj
          = store_after (add_url (token_issuer jwt kwargs) jku) kj)
     ∨ ((∀ jku found,
           headers jwt !! "jku" = Some jku → jku ≠ "" →
           token_issuer jwt kwargs ≠ "" →
           kw_trusting kwargs = Some true →
           result (find jku (token_issuer jwt kwargs)) kj = Return found →
           nothing_found bundle_true found = false)
        ∧ store_after
            (get_jwt_verify_keys bundle_true jws_alg2keytype is_public_key
               jwt kwargs) kj
          = kj)).
Proof.
  set (kt := match headers jwt !! "alg" with
             | Some alg => jws_alg2keytype alg
             | None => ""
             end).
  unfold result, store_after, get_jwt_verify_keys. cbv zeta.
  fold kt. fold (token_issuer jwt kwargs).
  set (_iss := token_issuer jwt kwargs).
  set (kid := default "" (headers jwt !! "kid")).
  set (nki := Some (default ∅ (kw_no_kid_issuer kwargs))).
  set (allow := default false (kw_allow_missing_kid kwargs)).
  rewrite !get_sig_run. rewrite bind_run, get_sig_run.
  set (own := picked "sig" kt None None (default [] (resolve_owner "" kj))).
  rewrite bind_run.
  assert (∃ added1,
            (if PyStr.truthy _iss
             then _add_key own _iss "sig" kt kid nki allow
             else ret own) kj = (Return (own ++ added1), kj))
    as (added1 & ->).
  { destruct (PyStr.truthy _iss).
    - apply add_key_sig_run.
    - exists []. unfold ret. by rewrite app_nil_r. }
  rewrite bind_run.
  assert (∀ kj',
            trust_extension bundle_true jwt kwargs _iss kj
            = (Return tt, kj') →
            ∃ lst,
              (let (o, kj'0) :=
                 trust_extension bundle_true jwt kwargs _iss kj in
               match o with
               | Return a =>
                   (add_keys_for_claims (own ++ added1) (payload jwt) kt kid
                      nki allow
                    ≫= λ keys, ret (filter (λ k, is_public_key k = true)
                                      keys)) kj'0
               | Raise e => (Raise e, kj'0)
               end) = (Return lst, kj')
              ∧ (∀ key, key ∈ lst → is_public_key key = true)
              ∧ ∀ key, key ∈ own → is_public_key key = true → key ∈ lst)
    as Htail.
  { intros kj' ->. rewrite bind_run.
    destruct (add_keys_for_claims_run (own ++ added1) (payload jwt) kt kid
                nki allow kj') as (added2 & ->).
    eexists. split; [done|]. split.
    - by intros key [? _]%list_elem_of_filter.
    - intros key Hown Hpub. apply list_elem_of_filter. split; [done|].
      rewrite !elem_of_app. by left; left. }
  pose proof (find_run) as Hfind.
  destruct (trust_extension_run bundle_true jwt kwargs _iss kj)
    as [(jku & Hjku & Hne & Hiss & Htr & Hnf & Hrun)|[Hidle Hrun]].
  - destruct (Htail _ Hrun) as (lst & -> & Hpub & Hown). cbn [fst snd].
    split.
    + exists lst. split; [done|]. split; [done|].
      intros own' key [= <-]. apply Hown.
    + left. exists jku. eexists. rewrite Hfind. cbn [fst]. eauto 10.
  - destruct (Htail _ Hrun) as (lst & -> & Hpub & Hown). cbn [fst snd].
    split.
    + exists lst. split; [done|]. split; [done|].
      intros own' key [= <-]. apply Hown.
    + right. split; [|done]. intros jku found ? ? ? ?.
      rewrite Hfind. cbn [fst]. intros [= <-]. by apply Hidle.
Qed.

(** *** Where the keys of a lookup come from *)

Lemma scan_keys_subseteq key_use use kid _bkeys key :
  key ∈ scan_keys key_use use kid _bkeys → key ∈ _bkeys.
Proof.
  induction _bkeys as [|key' rest IH]; [done|]. cbn [scan_keys].
  destruct (_ && _); [intros ?; by apply list_elem_of_further, IH|].
  destruct (_ || _); [|intros ?; by apply list_elem_of_further, IH].
  destruct (kid_given kid).
  - case_bool_decide.
    + intros ->%list_elem_of_singleton. apply list_elem_of_here.
    + intros ?. by apply list_elem_of_further, IH.
  - intros [->|?]%elem_of_cons; [apply list_elem_of_here|].
    by apply list_elem_of_further, IH.
Qed.

Lemma bundle_get_subseteq typ kb key :
  key ∈ KeyBundle.get typ kb → key ∈ KeyBundle.keys kb.
Proof. by intros [_ ?]%list_elem_of_filter. Qed.

Lemma picked_subseteq key_use key_type kid alg kbl key :
  key ∈ picked key_use key_type kid alg kbl →
  key ∈ flat_map KeyBundle.keys kbl.
Proof.
  unfold picked. intros Hin%ec_filter_subseteq.
  apply elem_of_flat_map in Hin as (bundle & Hb & Hin).
  apply elem_of_flat_map. exists bundle. split; [done|].
  apply scan_keys_subseteq in Hin.
  destruct (PyStr.truthy key_type); [by eapply bundle_get_subseteq|done].
Qed.

Lemma own_symmetric_subseteq use key_type own key :
  key ∈ own_symmetric use key_type own →
  key ∈ flat_map KeyBundle.keys own.
Proof.
  intros (kb & Hkb & Hin)%elem_of_flat_map.
  apply elem_of_flat_map. exists kb. split; [done|].
  apply list_elem_of_filter in Hin as [_ Hin].
  by eapply bundle_get_subseteq.
Qed.

(** X26: a lookup hands out stored keys only: every key it returns is
    held by a bundle of the owner as given, or of the owner with its
    trailing slash toggled, or of my own identity [""]. *)
Theorem get_returns_stored_keys key_use key_type owner kid alg kj lst key :
  result (get key_use key_type owner kid alg) kj = Return lst →
  key ∈ lst →
  key ∈ keys_of kj owner
  ∨ key ∈ keys_of kj (toggle_slash owner)
  ∨ key ∈ keys_of kj "".
Proof.
  rewrite get_result.
  assert (∀ _kj, resolve_owner owner kj = Some _kj →
                 key ∈ flat_map KeyBundle.keys _kj →
                 key ∈ keys_of kj owner
                 ∨ key ∈ keys_of kj (toggle_slash owner)) as Hres.
  { intros _kj Hr Hin. unfold resolve_owner in Hr. unfold keys_of.
    destruct (issuer_keys kj !! owner) as [kbl|].
    - injection Hr as ->. by left.
    - case_bool_decide; [done|]. rewrite Hr. by right. }
  intros Hinv%get_Return_inv Hin.
  destruct Hinv
    as [->|(_kj & Hr & [[_ ->]|(_ & _ & _ & own & Hown & ->)])].
  - by apply elem_of_nil in Hin.
  - apply picked_subseteq in Hin. destruct (Hres _ Hr Hin); tauto.
  - apply elem_of_app in Hin as [Hin|Hin].
    + apply picked_subseteq in Hin. destruct (Hres _ Hr Hin); tauto.
    + right. right. unfold keys_of. rewrite Hown.
      by eapply own_symmetric_subseteq.
Qed.

Lemma get_returns_stored_keys_witness :
  Sample.shared_secret ∈ keys_of Sample.one_client "https://rp"
  ∨ Sample.shared_secret
    ∈ keys_of Sample.one_client (toggle_slash "https://rp")
  ∨ Sample.shared_secret ∈ keys_of Sample.one_client "".
Proof.
  apply (get_returns_stored_keys "sig" "oct" "https://rp" None None
           Sample.one_client [Sample.shared_secret] Sample.shared_secret).
  - reflexivity.
  - apply list_elem_of_here.
Defined.

(** *** Symmetric keys *)

Lemma add_symmetric_run b64e owner key usage kj :
  add_symmetric b64e owner key usage kj
  = (Return tt,
     with_issuer_keys kj
       (<[owner := default [] (issuer_keys kj !! owner)
                   ++ (symmetric_bundle b64e key <$> usages_of usage)]>
          (issuer_keys kj))).
Proof.
  unfold add_symmetric. rewrite bind_run. cbn [has_owner].
  set (base := default [] (issuer_keys kj !! owner)).
  set (kj1 := with_issuer_keys kj (<[owner := base]> (issuer_keys kj))).
  rewrite bind_run.
  assert ((if negb (bool_decide (is_Some (issuer_keys kj !! owner)))
           then assign owner [] else ret tt) kj = (Return tt, kj1)) as ->.
  { unfold kj1, base. destruct (issuer_keys kj !! owner) as [kbl|] eqn:Ho.
    - rewrite bool_decide_eq_true_2 by eauto. cbn. unfold ret.
      by rewrite insert_id, with_issuer_keys_id.
    - by rewrite bool_decide_eq_false_2 by (by intros [? ?]). }
  assert (issuer_keys kj1 !! owner = Some base) as Hbase
    by (cbn; apply lookup_insert_eq).
  cbv zeta. destruct usage as [usage|]; cbn [usages_of].
  - change (λ use, append owner
                     (KeyBundle.of_keys
                        [Key.mk "oct" use "" "" 0 (b64e key) true] true))
      with (λ use, append owner (symmetric_bundle b64e key use)).
    rewrite (for_each_append _ _ _ _ base) by done.
    unfold kj1. cbn. by rewrite insert_insert_eq.
  - change (KeyBundle.of_keys [Key.mk "oct" "" "" "" 0 (b64e key) true] true)
      with (symmetric_bundle b64e key "").
    rewrite (append_run _ _ base) by done.
    unfold kj1. cbn. by rewrite insert_insert_eq.
Qed.


Lemma own_symmetric_app use key_type l1 l2 :
  own_symmetric use key_type (l1 ++ l2)
  = own_symmetric use key_type l1 ++ own_symmetric use key_type l2.
Proof. unfold own_symmetric. apply flat_map_app. Qed.

(** X28: a secret added under my own identity [""] with no usage, or with
    usage ["enc"], is handed out by every encryption or decryption lookup
    of type ["oct"] for a non-empty owner the store knows: the shared
    secret serves all counterparties. *)
Theorem add_symmetric_shared b64e key usage use key_use owner kid alg kj :
  use ∈ usages_of usage →
  use = "" ∨ use = "enc" →
  key_use ∈ ["dec"; "enc"] →
  owner ≠ "" →
  is_Some (issuer_keys kj !! owner) →
  ∃ lst,
    result (get key_use "oct" owner kid alg)
      (store_after (add_symmetric b64e "" key usage) kj) = Return lst
    ∧ Key.mk "oct" use "" "" 0 (b64e key) true ∈ lst.
Proof.
  intros Huse Hu Hkey_use Hne [kbl Hkbl].
  rewrite get_result. unfold store_after.
  rewrite add_symmetric_run. cbn [snd]. unfold get_outcome.
  rewrite (resolve_owner_direct _ kbl)
    by (cbn; by rewrite lookup_insert_ne by congruence).
  cbv zeta. unfold use_class. rewrite (bool_decide_eq_true_2 _ Hkey_use).
  rewrite (bool_decide_eq_true_2 (owner ≠ "")) by done.
  cbn [andb bool_decide decide_rel]. rewrite !bool_decide_eq_true_2 by done.
  cbn [andb issuer_keys with_issuer_keys]. rewrite lookup_insert_eq.
  eexists. split; [done|].
  apply elem_of_app. right. rewrite own_symmetric_app.
  apply elem_of_app. right.
  apply elem_of_flat_map. exists (symmetric_bundle b64e key use).
  split; [by apply list_elem_of_fmap_2|].
  apply list_elem_of_filter. split.
  - split; [done|]. destruct Hu as [-> | ->]; [by left|by right].
  - unfold KeyBundle.get, symmetric_bundle. cbn.
    rewrite decide_True by done. apply list_elem_of_here.
Qed.

Lemma add_symmetric_shared_witness :
  ∃ lst,
    result (get "enc" "oct" "https://rp/" None None)
      (store_after (add_symmetric (λ secret, secret) "" "c2VjcmV0" None)
         Sample.one_client) = Return lst
    ∧ Key.mk "oct" "" "" "" 0 "c2VjcmV0" true ∈ lst.
Proof.
  apply (add_symmetric_shared (λ secret, secret) "c2VjcmV0" None ""
           "enc" "https://rp/" None None Sample.one_client).
  - apply list_elem_of_here.
  - by left.
  - set_solver.
  - done.
  - eexists. reflexivity.
Defined.

End KeyJarLaws.
